(** * Wordlist generator of passwordchecker.py

    A shallow embedding of the generation engine of
    [src/password strength/passwordchecker.py]: [case_variations],
    [generate_leet_variants], [build_base_words] and [generate_wordlist],
    and of their callers [interactive_mode] and [main], together with the
    properties stated about them.

    Conventions of the embedding.
    - A Python [str] is a list of code points ([PyStr.str]); [len] counts
      code points and a slice cuts at code points.  A character is a [str]
      of length one, as in Python.  String literals of the source, all
      ASCII, are written [py "..."].
    - The Unicode database behind [str.lower], [str.upper],
      [str.capitalize], [str.strip] and [str.split] is not part of the
      source: it is a parameter ([Unicode]) of every function that uses it,
      known only through what it does on ASCII text and through the facts
      that no case mapping erases a string or produces a line feed.
    - A Python [set] of strings is a [gset].  The order in which Python
      iterates a set depends on the hash seed of the process; it is a
      parameter ([HashOrder]) of every function that iterates a set.
    - Integers are [Z]; [len] of a container is [Z.of_nat] of its size. *)

From Stdlib Require Import ZArith Lia Ascii String.
From stdpp Require Import base gmap sets list strings sorting pretty.

Local Open Scope Z_scope.

(* [set_solver] and [naive_solver] clear hypotheses by name as they go. *)
Local Set Warnings "-clear-no-such-hyp".

(** ** Python strings *)

(** A code point. *)
Definition char : Type := N.

(** A Python [str]. *)
Definition str : Type := list N.

(** An ASCII literal of the source. *)
Definition py (s : string) : str := N_of_ascii <$> list_ascii_of_string s.

Module PyStr.

(** [len(s)] *)
Definition len (s : str) : Z := Z.of_nat (length s).

(** [for ch in s]: the characters of [s], each a string of length one. *)
Definition chars (s : str) : list str := (fun c => [c]) <$> s.

(** [''.join(parts)] *)
Definition join (parts : list str) : str := foldr app [] parts.

(** The slice [s[:n]]: the first [n] code points, all of [s] when it is
    shorter. *)
Definition prefix (n : nat) (s : str) : str := take n s.

(** The line feed. *)
Definition LF : char := 10%N.

Definition is_ascii (c : char) : Prop := (c < 128)%N.

(** The case mappings and the whitespace of the ASCII range. *)
Definition ascii_lower (c : char) : char :=
  if ((65 <=? c) && (c <=? 90))%N then (c + 32)%N else c.

Definition ascii_upper (c : char) : char :=
  if ((97 <=? c) && (c <=? 122))%N then (c - 32)%N else c.

Definition ascii_capitalize (s : str) : str :=
  match s with
  | [] => []
  | c :: rest => ascii_upper c :: (ascii_lower <$> rest)
  end.

(** Tab, line feed, vertical tab, form feed, carriage return, the
    separators 28..31 and the space. *)
Definition ascii_isspace (c : char) : bool :=
  (((9 <=? c) && (c <=? 13)) || ((28 <=? c) && (c <=? 32)))%N.

(** The Unicode database of the interpreter, as the [str] methods use it:
    [s.lower()], [s.upper()], [s.capitalize()] and the whitespace that
    [strip] and [split] remove.  On ASCII text the methods are the ASCII
    ones; on any text a case mapping keeps a non-empty string non-empty and
    produces no line feed. *)
Record Unicode := {
  lower : str → str;
  upper : str → str;
  capitalize : str → str;
  isspace : char → bool;
  lower_ascii : ∀ s, Forall is_ascii s → lower s = ascii_lower <$> s;
  upper_ascii : ∀ s, Forall is_ascii s → upper s = ascii_upper <$> s;
  capitalize_ascii :
    ∀ s, Forall is_ascii s → capitalize s = ascii_capitalize s;
  isspace_ascii : ∀ c, is_ascii c → isspace c = ascii_isspace c;
  lower_nonempty : ∀ s, s ≠ [] → lower s ≠ [];
  upper_nonempty : ∀ s, s ≠ [] → upper s ≠ [];
  capitalize_nonempty : ∀ s, s ≠ [] → capitalize s ≠ [];
  lower_newline : ∀ s, LF ∈ lower s → LF ∈ s;
  upper_newline : ∀ s, LF ∈ upper s → LF ∈ s;
  capitalize_newline : ∀ s, LF ∈ capitalize s → LF ∈ s
}.

(** [s.lstrip()], [s.rstrip()] and [s.strip()]: a trailing character is
    dropped when it is whitespace and everything after it has been
    dropped. *)
Fixpoint lstrip (u : Unicode) (s : str) : str :=
  match s with
  | [] => []
  | c :: s' => if isspace u c then lstrip u s' else s
  end.

Fixpoint rstrip (u : Unicode) (s : str) : str :=
  match s with
  | [] => []
  | c :: s' =>
      match rstrip u s' with
      | [] => if isspace u c then [] else [c]
      | r => c :: r
      end
  end.

Definition strip (u : Unicode) (s : str) : str := rstrip u (lstrip u s).

(** A whitespace character occurs in [s]. *)
Definition has_space (u : Unicode) (s : str) : bool :=
  existsb (isspace u) s.

(** [s.split()]: the maximal runs of characters other than whitespace, in
    order; [cur] is the run read so far. *)
Fixpoint split_go (u : Unicode) (cur : str) (s : str) : list str :=
  match s with
  | [] => if decide (cur = []) then [] else [cur]
  | c :: s' =>
      if isspace u c
      then (if decide (cur = []) then split_go u [] s'
            else cur :: split_go u [] s')
      else split_go u (cur ++ [c]) s'
  end.

Definition split (u : Unicode) (s : str) : list str := split_go u [] s.

(** [str(n)] for a non-negative integer (decimal digits). *)
Definition of_int (n : Z) : str := py (pretty n).

(** [range(start, stop, step)] for a positive step; [fuel] bounds the
    number of elements. *)
Fixpoint range_fuel (fuel : nat) (start stop step : Z) : list Z :=
  match fuel with
  | O => []
  | S fuel' =>
      if start <? stop
      then start :: range_fuel fuel' (start + step) stop step
      else []
  end.

Definition range (start stop step : Z) : list Z :=
  range_fuel (Z.to_nat (stop - start)) start stop step.

(** [list(dict.fromkeys(l))]: duplicates removed, the first occurrence of
    each element kept, in order. *)
Fixpoint dedupe_go (seen : list str) (l : list str) : list str :=
  match l with
  | [] => []
  | x :: l' =>
      if decide (x ∈ seen) then dedupe_go seen l'
      else x :: dedupe_go (x :: seen) l'
  end.

Definition dedupe (l : list str) : list str := dedupe_go [] l.

(** [itertools.product] of the pools: tuples in lexicographic order, the last
    position advancing fastest. *)
Fixpoint product (pools : list (list str)) : list (list str) :=
  match pools with
  | [] => [[]]
  | pool :: rest =>
      flat_map (fun x => map (cons x) (product rest)) pool
  end.

(** The order of Python on strings: lexicographic on the code points, a
    proper prefix first. *)
Fixpoint leb (s1 s2 : str) : bool :=
  match s1, s2 with
  | [], _ => true
  | _ :: _, [] => false
  | c1 :: r1, c2 :: r2 =>
      if (c1 <? c2)%N then true
      else if (c1 =? c2)%N then leb r1 r2 else false
  end.

Definition le (s1 s2 : str) : Prop := leb s1 s2 = true.

#[global] Instance le_dec : RelDecision le.
Proof. intros s1 s2. unfold le. apply _. Defined.

End PyStr.

Definition Unicode : Type := PyStr.Unicode.

(** ** Python sets and their iteration order *)

(** The order in which a set is iterated: some permutation of its elements,
    fixed by the hash seed of the run. *)
Record HashOrder := {
  iter : gset str → list str;
  iter_perm : ∀ s, iter s ≡ₚ elements s
}.

(** [len(s)] for a set. *)
Definition set_len (s : gset str) : Z := Z.of_nat (size s).

(** [sorted(s)] for a set of strings: the elements in increasing order of
    code points.  The order is total and antisymmetric, so the sorted list
    of a collection is unique and any sorting algorithm yields it. *)
Definition sorted (ho : HashOrder) (s : gset str) : list str :=
  merge_sort PyStr.le (iter ho s).

(** ** Constants of the module *)

Definition LEET_MAP : gmap str (list str) :=
  list_to_map
    [ (py "a", [py "a"; py "@"; py "4"]);
      (py "b", [py "b"; py "8"]);
      (py "e", [py "e"; py "3"]);
      (py "i", [py "i"; py "1"; py "!"]);
      (py "l", [py "l"; py "1"]);
      (py "o", [py "o"; py "0"]);
      (py "s", [py "s"; py "$"; py "5"]);
      (py "t", [py "t"; py "7"]);
      (py "g", [py "g"; py "9"]) ].

Definition MAX_LEET_COMBINATIONS : Z := 5000.
Definition MAX_FINAL_WORDLIST_SIZE : Z := 200000.

(** ** case_variations *)

Definition case_variations (u : Unicode) (ho : HashOrder) (word : str)
    : list str :=
  let variants : gset str := ∅ in
  let variants := {[ word ]} ∪ variants in
  let variants := {[ PyStr.lower u word ]} ∪ variants in
  let variants := {[ PyStr.upper u word ]} ∪ variants in
  let variants := {[ PyStr.capitalize u word ]} ∪ variants in
  sorted ho variants.

(** ** generate_leet_variants *)

(** The alternatives of one position: the character itself followed by the
    table entry of its lower-case form, without duplicates. *)
Definition options_of (u : Unicode) (ch : str) : list str :=
  match LEET_MAP !! PyStr.lower u ch with
  | Some alts => PyStr.dedupe (ch :: alts)
  | None => [ch]
  end.

Definition choices_of (u : Unicode) (word : str) : list (list str) :=
  options_of u <$> PyStr.chars word.

(** The size estimate: the running product of the alphabet sizes, left as
    soon as it exceeds [cap * 5].  The function computes it and does not use
    it afterwards. *)
Fixpoint estimate_go (cap : Z) (estimated : Z) (choices : list (list str))
    : Z :=
  match choices with
  | [] => estimated
  | c :: rest =>
      let estimated := estimated * Z.of_nat (length c) in
      if cap * 5 <? estimated then estimated else estimate_go cap estimated rest
  end.

(** The enumeration loop: each combination is joined and added, and the loop
    is left once the set holds [cap] elements. *)
Fixpoint collect_variants (cap : Z) (variants : gset str)
    (combos : list (list str)) : gset str :=
  match combos with
  | [] => variants
  | combo :: rest =>
      let variants := {[ PyStr.join combo ]} ∪ variants in
      if cap <=? set_len variants then variants
      else collect_variants cap variants rest
  end.

Definition generate_leet_variants (u : Unicode) (word : str) (cap : Z)
    : gset str :=
  if decide (word = []) then ∅
  else
    let choices := choices_of u word in
    let estimated := estimate_go cap 1 choices in
    collect_variants cap ∅ (PyStr.product choices).

(** ** build_base_words *)

Definition affixes : list str :=
  [py ""; py "123"; py "!"; py "@"; py "2025"; py "01"; py "07"].

(** The inner loop: [base.add(v + aff)] for each affix. *)
Definition add_affixes (v : str) (base : gset str) : gset str :=
  foldl (fun base aff => {[ v ++ aff ]} ∪ base) base affixes.

(** The body of the loop over the inputs: the input is stripped, skipped
    when empty, and each of its case variations is added, alone and with
    each affix. *)
Definition add_input (u : Unicode) (ho : HashOrder) (base : gset str)
    (inp : str) : gset str :=
  let inp := PyStr.strip u inp in
  if decide (inp = []) then base
  else
    foldl (fun base v => add_affixes v ({[ v ]} ∪ base))
          base (case_variations u ho inp).

(** [[x.lower() for x in inputs if x]]: the inputs as given (not stripped),
    the empty ones left out. *)
Definition inputs_lower (u : Unicode) (inputs : list str) : list str :=
  PyStr.lower u <$> filter (fun x => x ≠ []) inputs.

(** The body of the pairwise loops. *)
Definition add_pair (a : str) (base : gset str) (b : str) : gset str :=
  if decide (a ≠ b ∧ PyStr.len a + PyStr.len b ≤ 30)
  then {[ (a ++ b) ++ py "123" ]} ∪ ({[ a ++ b ]} ∪ base)
  else base.

Definition add_pairs (lowered : list str) (base : gset str) : gset str :=
  foldl (fun base a => foldl (add_pair a) base lowered) base lowered.

Definition base_set (u : Unicode) (ho : HashOrder) (inputs : list str)
    : gset str :=
  let base := foldl (add_input u ho) ∅ inputs in
  add_pairs (inputs_lower u inputs) base.

Definition build_base_words (u : Unicode) (ho : HashOrder)
    (inputs : list str) : list str :=
  sorted ho (base_set u ho inputs).

(** ** generate_wordlist *)

(** [range(1990, 2026, 5)] *)
Definition years : list Z := PyStr.range 1990 2026 5.

(** The loop over the years, left as soon as the set has reached the cap. *)
Fixpoint add_years (out_cap : Z) (w : str) (ys : list Z)
    (all_words : gset str) : gset str :=
  match ys with
  | [] => all_words
  | year :: rest =>
      if out_cap <=? set_len all_words then all_words
      else
        let all_words := {[ w ++ PyStr.of_int year ]} ∪ all_words in
        let all_words := {[ PyStr.of_int year ++ w ]} ∪ all_words in
        add_years out_cap w rest all_words
  end.

(** The numeric endings, added while the set is below the cap. *)
Definition add_endings (out_cap : Z) (w : str) (all_words : gset str)
    : gset str :=
  if set_len all_words <? out_cap
  then {[ w ++ py "1234" ]} ∪ ({[ w ++ py "007" ]} ∪ all_words)
  else all_words.

(** The loop over the base words: words longer than 40 are skipped, and the
    loop is left once the set has reached the cap. *)
Fixpoint expand_words (u : Unicode) (out_cap : Z) (base_words : list str)
    (all_words : gset str) : gset str :=
  match base_words with
  | [] => all_words
  | w :: rest =>
      if 40 <? PyStr.len w then expand_words u out_cap rest all_words
      else
        let leet_vars := generate_leet_variants u w 500 in
        let all_words := all_words ∪ leet_vars in
        let all_words := add_years out_cap w years all_words in
        let all_words := add_endings out_cap w all_words in
        if out_cap <=? set_len all_words then all_words
        else expand_words u out_cap rest all_words
  end.

(** The slice [final_list[:n]] for [n >= 0]: the first [n] entries. *)
Definition take_upto (n : Z) (l : list str) : list str :=
  take (Z.to_nat n) l.

(** The function with the cap as a parameter; the result is [final_list],
    the sequence written to the file. *)
Definition generate_wordlist_capped (out_cap : Z) (u : Unicode)
    (ho : HashOrder) (inputs : list str) : list str :=
  let base_words := build_base_words u ho inputs in
  let all_words : gset str := list_to_set base_words in
  let all_words := expand_words u out_cap base_words all_words in
  let final_list := sorted ho all_words in
  if out_cap <? Z.of_nat (length final_list)
  then take_upto out_cap final_list
  else final_list.

Definition generate_wordlist (u : Unicode) (ho : HashOrder)
    (inputs : list str) : list str :=
  generate_wordlist_capped MAX_FINAL_WORDLIST_SIZE u ho inputs.

(** The file written by [generate_wordlist]: each entry followed by a line
    feed. *)
Definition newline : str := [PyStr.LF].

Definition write_lines (items : list str) : str :=
  foldr (fun item rest => item ++ newline ++ rest) [] items.

(** No line feed in [s] (["\n" not in s]). *)
Definition newline_free (s : str) : Prop := PyStr.LF ∉ s.

(** Modelled from the spec: the reader of the round trip.  The program only
    writes the file; the spec's re-reading "one entry per line" is taken as
    splitting the text at each line feed, a last line without a line feed
    counting as an entry. *)
Fixpoint read_lines (text : str) : list str :=
  match text with
  | [] => []
  | c :: text' =>
      if decide (c = PyStr.LF) then [] :: read_lines text'
      else
        match read_lines text' with
        | [] => [[c]]
        | line :: lines => (c :: line) :: lines
        end
  end.

(** ** Two iteration orders and the ASCII database *)

Definition canonical_order : HashOrder :=
  {| iter := elements; iter_perm := fun s => reflexivity (elements s) |}.

Definition reversed_order : HashOrder :=
  {| iter := fun s => reverse (elements s);
     iter_perm := fun s => reverse_Permutation (elements s) |}.

(** The database that knows the ASCII range only: characters above 127
    have no case and are no whitespace.  On ASCII text every database gives
    what this one gives; it serves to evaluate the functions there. *)
Program Definition ascii_only : Unicode :=
  {| PyStr.lower := fmap PyStr.ascii_lower;
     PyStr.upper := fmap PyStr.ascii_upper;
     PyStr.capitalize := PyStr.ascii_capitalize;
     PyStr.isspace := PyStr.ascii_isspace |}.
Next Obligation. done. Qed.
Next Obligation. done. Qed.
Next Obligation. done. Qed.
Next Obligation. done. Qed.
Next Obligation. by intros [|c s] H. Qed.
Next Obligation. by intros [|c s] H. Qed.
Next Obligation. by intros [|c s] H. Qed.
Next Obligation.
  intros s. rewrite !list_elem_of_fmap. intros (c & Hc & Hin).
  assert (c = PyStr.LF) as ->; [|done].
  unfold PyStr.ascii_lower, PyStr.LF in *.
  destruct (_ && _)%N eqn:E; [|done].
  apply andb_true_iff in E as [?%N.leb_le ?%N.leb_le]. lia.
Qed.
Next Obligation.
  intros s. rewrite !list_elem_of_fmap. intros (c & Hc & Hin).
  assert (c = PyStr.LF) as ->; [|done].
  unfold PyStr.ascii_upper, PyStr.LF in *.
  destruct (_ && _)%N eqn:E; [|done].
  apply andb_true_iff in E as [?%N.leb_le ?%N.leb_le]. lia.
Qed.
Next Obligation.
  intros [|c s]; simpl; [done|].
  rewrite !elem_of_cons, !list_elem_of_fmap.
  intros [Hc|(c' & Hc' & Hin)].
  - left. unfold PyStr.ascii_upper, PyStr.LF in *.
    destruct (_ && _)%N eqn:E; [|done].
    apply andb_true_iff in E as [?%N.leb_le ?%N.leb_le]. lia.
  - right. assert (c' = PyStr.LF) as ->; [|done].
    unfold PyStr.ascii_lower, PyStr.LF in *.
    destruct (_ && _)%N eqn:E; [|done].
    apply andb_true_iff in E as [?%N.leb_le ?%N.leb_le]. lia.
Qed.

(** ** Where the entries come from *)

(** What one case variation [v] contributes: itself and itself followed by
    an affix. *)
Definition from_variant (v x : str) : Prop :=
  x = v ∨ ∃ aff, aff ∈ affixes ∧ x = v ++ aff.

(** What one input contributes. *)
Definition from_input (u : Unicode) (ho : HashOrder) (inp x : str) : Prop :=
  PyStr.strip u inp ≠ []
  ∧ ∃ v, v ∈ case_variations u ho (PyStr.strip u inp) ∧ from_variant v x.

(** What one ordered pair of lowered inputs contributes. *)
Definition from_pair (a b x : str) : Prop :=
  a ≠ b ∧ PyStr.len a + PyStr.len b ≤ 30
  ∧ (x = a ++ b ∨ x = (a ++ b) ++ py "123").

(** What one base word [w] contributes besides itself: its leet variants,
    the years after and before it, and the two numeric endings. *)
Definition derived_from (u : Unicode) (w x : str) : Prop :=
  x ∈ generate_leet_variants u w 500
  ∨ (∃ year, year ∈ years
       ∧ (x = w ++ PyStr.of_int year ∨ x = PyStr.of_int year ++ w))
  ∨ x = w ++ py "007" ∨ x = w ++ py "1234".


(** ** Counting the leet combinations *)

(** The number of tuples [itertools.product] enumerates: the product of the
    alphabet sizes of the positions. *)
Definition count_combinations (choices : list (list str)) : Z :=
  foldr (fun c acc => Z.of_nat (length c) * acc) 1 choices.

(** A character [x] that a variant may hold at a position where the word
    holds [ch]: [ch] itself or an alternative the table lists for the
    lower-case form of [ch]. *)
Definition allowed_at (u : Unicode) (x ch : str) : Prop :=
  x = ch ∨ ∃ alts, LEET_MAP !! PyStr.lower u ch = Some alts ∧ x ∈ alts.

(** ** The command line, the prompts and main *)

(** The namespace [argparse] returns: [--password] and [--inputs] are absent
    ([None]) or given, [--out] has a default. *)
Record Args := {
  arg_password : option str;
  arg_inputs : option (list str);
  arg_out : str
}.

(** [input(prompt)]: the next line of the standard input, without its line
    feed.  [None] stands for the [EOFError] raised when no line is left. *)
Definition input (stdin : list str) : option (str * list str) :=
  match stdin with
  | [] => None
  | line :: rest => Some (line, rest)
  end.

(** [interactive_mode()]: the two prompts; the result is the password, the
    tokens and the lines left on the standard input. *)
Definition interactive_mode (u : Unicode) (stdin : list str)
    : option (str * list str * list str) :=
  '(line, stdin) ← input stdin;
  let pwd := PyStr.strip u line in
  '(line, stdin) ← input stdin;
  let raw_inputs := PyStr.strip u line in
  let inputs :=
    if decide (raw_inputs = []) then [py "password"; py "admin"; py "user"]
    else PyStr.split u raw_inputs in
  Some (pwd, inputs, stdin).

(** The truth value of an optional string and of an optional list: [None]
    and the empty value are false. *)
Definition given_str (o : option str) : bool :=
  match o with
  | Some s => bool_decide (s ≠ [])
  | None => false
  end.

Definition given_list (o : option (list str)) : bool :=
  match o with
  | Some l => bool_decide (l ≠ [])
  | None => false
  end.

(** The first part of [main]: the password and the tokens, from the command
    line where given and from the prompts otherwise. *)
Definition resolve_args (u : Unicode) (args : Args) (stdin : list str)
    : option (str * list str) :=
  if negb (given_str (arg_password args)) && negb (given_list (arg_inputs args))
  then
    '(password, inputs, _) ← interactive_mode u stdin;
    Some (password, inputs)
  else if given_str (arg_password args) && given_list (arg_inputs args)
  then Some (default [] (arg_password args), default [] (arg_inputs args))
  else
    '(password, stdin) ←
      (if negb (given_str (arg_password args))
       then '(line, stdin) ← input stdin; Some (PyStr.strip u line, stdin)
       else Some (default [] (arg_password args), stdin));
    '(inputs, stdin) ←
      (if negb (given_list (arg_inputs args))
       then
         '(line, stdin) ← input stdin;
         let raw := PyStr.strip u line in
         Some (if decide (raw = []) then [] else PyStr.split u raw, stdin)
       else Some (default [] (arg_inputs args), stdin));
    Some (password, inputs).

(** The seeds used when no tokens are given: the password and, when it has
    at least four characters, its first four. *)
Definition fallback_seeds (password : str) : gset str :=
  let seeds : gset str := ∅ in
  let seeds := {[ password ]} ∪ seeds in
  if 4 <=? PyStr.len password
  then {[ PyStr.prefix 4 password ]} ∪ seeds
  else seeds.

(** How a run of [main] ends: [sys.exit] with a status; the [EOFError] of a
    prompt that finds no line; the call of [generate_wordlist] that writes
    the entries to the output path; or the same call failing to open the
    file, which [main] catches: the error is printed and nothing is
    written. *)
Inductive outcome :=
| Exited (status : Z)
| Crashed
| Generated (out_path : str) (entries : list str)
| Not_written (out_path : str).

(** [main()].  The analysis of the password is an external call whose
    result [main] does not use and whose exceptions it catches; it is left
    out.  [can_open] tells whether [open(out_path, "w")] succeeds.
    [list(seeds)] iterates a set. *)
Definition main (u : Unicode) (ho : HashOrder) (can_open : str → bool)
    (args : Args) (stdin : list str) : outcome :=
  match resolve_args u args stdin with
  | None => Crashed
  | Some (password, inputs) =>
      if decide (password = []) then Exited 1
      else
        let inputs :=
          if decide (inputs = []) then iter ho (fallback_seeds password)
          else inputs in
        let entries := generate_wordlist u ho inputs in
        if can_open (arg_out args) then Generated (arg_out args) entries
        else Not_written (arg_out args)
  end.

(** * Properties *)

(** ** The order on strings *)

#[global] Instance str_le_total : Total PyStr.le.
Proof.
  intros s1. unfold PyStr.le.
  induction s1 as [|c1 r1 IH]; intros [|c2 r2]; simpl; auto.
  destruct (N.ltb_spec c1 c2), (N.ltb_spec c2 c1); auto; try lia.
  assert (c1 = c2) as -> by lia. rewrite N.eqb_refl. apply IH.
Qed.

#[global] Instance str_le_trans : Transitive PyStr.le.
Proof.
  intros s1. unfold PyStr.le.
  induction s1 as [|c1 r1 IH]; intros [|c2 r2] [|c3 r3]; simpl; auto;
    try discriminate.
  destruct (N.ltb_spec c1 c2), (N.ltb_spec c2 c3), (N.ltb_spec c1 c3);
    auto; try lia;
    destruct (N.eqb_spec c1 c2), (N.eqb_spec c2 c3), (N.eqb_spec c1 c3);
    auto; try lia; try discriminate.
  apply IH.
Qed.

#[global] Instance str_le_antisym : AntiSymm (=) PyStr.le.
Proof.
  intros s1. unfold PyStr.le.
  induction s1 as [|c1 r1 IH]; intros [|c2 r2] H1 H2; simpl in *;
    try done.
  destruct (N.ltb_spec c1 c2), (N.ltb_spec c2 c1); try lia;
    destruct (N.eqb_spec c1 c2), (N.eqb_spec c2 c1); try lia;
    try discriminate.
  subst. f_equal. by apply IH.
Qed.

(** ** Sorting a set *)

Section sorted_facts.
Context (ho : HashOrder).

Lemma sorted_Permutation (s : gset str) : sorted ho s ≡ₚ elements s.
Proof.
  unfold sorted. rewrite merge_sort_Permutation. apply iter_perm.
Qed.

Lemma sorted_Sorted (s : gset str) : Sorted PyStr.le (sorted ho s).
Proof. apply (Sorted_merge_sort PyStr.le). Qed.

Lemma elem_of_sorted (s : gset str) (x : str) :
  x ∈ sorted ho s ↔ x ∈ s.
Proof. rewrite sorted_Permutation. apply elem_of_elements. Qed.

Lemma NoDup_sorted (s : gset str) : NoDup (sorted ho s).
Proof. rewrite sorted_Permutation. apply NoDup_elements. Qed.

Lemma length_sorted (s : gset str) : length (sorted ho s) = size s.
Proof. by rewrite sorted_Permutation. Qed.

Lemma list_to_set_sorted (s : gset str) :
  list_to_set (sorted ho s) = s.
Proof.
  apply set_eq. intros x. rewrite elem_of_list_to_set. apply elem_of_sorted.
Qed.
End sorted_facts.

(** The two iteration orders really differ, and [sorted] hides it. *)
Lemma iteration_orders_differ :
  iter canonical_order {[ py "a"; py "b" ]}
  ≠ iter reversed_order {[ py "a"; py "b" ]}.
Proof. vm_compute. discriminate. Qed.

(** The sorted list of a set does not depend on the iteration order. *)
Lemma sorted_canonical (ho1 ho2 : HashOrder) (s : gset str) :
  sorted ho1 s = sorted ho2 s.
Proof.
  apply (Sorted_unique PyStr.le); try apply sorted_Sorted.
  by rewrite !sorted_Permutation.
Qed.

Lemma case_variations_canonical (u : Unicode) (ho1 ho2 : HashOrder)
    (word : str) :
  case_variations u ho1 word = case_variations u ho2 word.
Proof. apply sorted_canonical. Qed.

Lemma add_input_canonical (u : Unicode) (ho1 ho2 : HashOrder) base inp :
  add_input u ho1 base inp = add_input u ho2 base inp.
Proof.
  unfold add_input. case_decide; [done|].
  by rewrite (case_variations_canonical u ho1 ho2).
Qed.

Lemma base_set_canonical (u : Unicode) (ho1 ho2 : HashOrder)
    (inputs : list str) :
  base_set u ho1 inputs = base_set u ho2 inputs.
Proof.
  unfold base_set. f_equal.
  generalize (∅ : gset str).
  induction inputs as [|inp inputs IH]; intros base; simpl; [done|].
  by rewrite (add_input_canonical u ho1 ho2), IH.
Qed.

Lemma build_base_words_canonical (u : Unicode) (ho1 ho2 : HashOrder) inputs :
  build_base_words u ho1 inputs = build_base_words u ho2 inputs.
Proof.
  unfold build_base_words.
  by rewrite (base_set_canonical u ho1 ho2), (sorted_canonical ho1 ho2).
Qed.

(** ** The global cap *)

Lemma length_take_upto (n : Z) (l : list str) :
  0 ≤ n → Z.of_nat (length (take_upto n l)) ≤ n.
Proof. intros Hn. unfold take_upto. rewrite length_take. lia. Qed.

Lemma generate_wordlist_capped_length (out_cap : Z) u ho inputs :
  0 ≤ out_cap →
  Z.of_nat (length (generate_wordlist_capped out_cap u ho inputs)) ≤ out_cap.
Proof.
  intros Hcap. unfold generate_wordlist_capped.
  destruct (Z.ltb_spec out_cap
    (Z.of_nat (length (sorted ho (expand_words u out_cap
       (build_base_words u ho inputs)
       (list_to_set (build_base_words u ho inputs))))))) as [Hlt|Hle].
  - by apply length_take_upto.
  - done.
Qed.

(** C1: for every token list (whatever the Unicode database and the
    iteration order of the sets), the list returned by [generate_wordlist]
    has at most [MAX_FINAL_WORDLIST_SIZE] = 200000 entries. *)
Theorem generate_wordlist_length_le_cap (u : Unicode) (ho : HashOrder)
    (tokens : list str) :
  Z.of_nat (length (generate_wordlist u ho tokens)) ≤ MAX_FINAL_WORDLIST_SIZE.
Proof.
  unfold generate_wordlist. apply generate_wordlist_capped_length.
  unfold MAX_FINAL_WORDLIST_SIZE. lia.
Qed.

(** C3: generation is deterministic.  The result of [generate_wordlist] is
    a function of the token list alone: whatever order the run iterates its
    sets in (the only thing that varies between two runs), the sorted output
    sequence is the same. *)
Theorem generate_wordlist_deterministic (u : Unicode) (ho1 ho2 : HashOrder)
    (tokens : list str) :
  generate_wordlist u ho1 tokens = generate_wordlist u ho2 tokens.
Proof.
  unfold generate_wordlist, generate_wordlist_capped.
  rewrite (build_base_words_canonical u ho1 ho2 tokens).
  by rewrite (sorted_canonical ho1 ho2).
Qed.

(** ** ASCII text *)

(** On ASCII text every Unicode database gives what [ascii_only] gives. *)
Lemma lower_ascii_only (u : Unicode) (s : str) :
  Forall PyStr.is_ascii s → PyStr.lower u s = PyStr.lower ascii_only s.
Proof. intros H. by rewrite !PyStr.lower_ascii. Qed.

Lemma upper_ascii_only (u : Unicode) (s : str) :
  Forall PyStr.is_ascii s → PyStr.upper u s = PyStr.upper ascii_only s.
Proof. intros H. by rewrite !PyStr.upper_ascii. Qed.

Lemma capitalize_ascii_only (u : Unicode) (s : str) :
  Forall PyStr.is_ascii s →
  PyStr.capitalize u s = PyStr.capitalize ascii_only s.
Proof. intros H. by rewrite !PyStr.capitalize_ascii. Qed.

Lemma lstrip_ascii_only (u : Unicode) (s : str) :
  Forall PyStr.is_ascii s → PyStr.lstrip u s = PyStr.lstrip ascii_only s.
Proof.
  induction 1 as [|c s Hc _ IH]; simpl; [done|].
  by rewrite (PyStr.isspace_ascii u c Hc), IH.
Qed.

Lemma rstrip_ascii_only (u : Unicode) (s : str) :
  Forall PyStr.is_ascii s → PyStr.rstrip u s = PyStr.rstrip ascii_only s.
Proof.
  induction 1 as [|c s Hc _ IH]; simpl; [done|].
  by rewrite (PyStr.isspace_ascii u c Hc), IH.
Qed.

Lemma lstrip_is_ascii (u : Unicode) (s : str) :
  Forall PyStr.is_ascii s → Forall PyStr.is_ascii (PyStr.lstrip u s).
Proof.
  induction 1 as [|c s Hc Hs IH]; simpl; [constructor|].
  destruct (PyStr.isspace u c); [done|by constructor].
Qed.

Lemma strip_ascii_only (u : Unicode) (s : str) :
  Forall PyStr.is_ascii s → PyStr.strip u s = PyStr.strip ascii_only s.
Proof.
  intros H. unfold PyStr.strip.
  rewrite (lstrip_ascii_only u s H).
  apply rstrip_ascii_only, lstrip_is_ascii, H.
Qed.

(** ASCII-ness of a given text is settled by evaluation. *)
Ltac ascii_text := vm_compute; repeat constructor.
(** ** Strings and characters *)

Lemma length_chars (s : str) : length (PyStr.chars s) = length s.
Proof. induction s as [|a s IH]; simpl; [done|]. by rewrite IH. Qed.

Lemma join_chars (s : str) : PyStr.join (PyStr.chars s) = s.
Proof. induction s as [|a s IH]; simpl; [done|]. by rewrite IH. Qed.

Lemma chars_single (s : str) :
  Forall (fun c => length c = 1%nat) (PyStr.chars s).
Proof. induction s as [|a s IH]; simpl; constructor; done. Qed.

Lemma length_join_single (combo : list str) :
  Forall (fun c => length c = 1%nat) combo →
  length (PyStr.join combo) = length combo.
Proof.
  induction 1 as [|c combo Hc _ IH]; simpl; [done|].
  rewrite length_app, Hc, IH. done.
Qed.

Lemma elem_of_dedupe_go (seen l : list str) (x : str) :
  x ∈ PyStr.dedupe_go seen l → x ∈ l.
Proof.
  revert seen. induction l as [|y l IH]; intros seen; simpl; [done|].
  case_decide.
  - intros Hx. right. by eapply IH.
  - intros [->|Hx]%elem_of_cons; [left|right; by eapply IH].
Qed.

Lemma elem_of_dedupe (l : list str) (x : str) :
  x ∈ PyStr.dedupe l → x ∈ l.
Proof. apply elem_of_dedupe_go. Qed.

Lemma elem_of_product (pools : list (list str)) (combo : list str) :
  combo ∈ PyStr.product pools → Forall2 (fun x pool => x ∈ pool) combo pools.
Proof.
  revert combo. induction pools as [|pool pools IH]; intros combo; simpl.
  - intros ->%list_elem_of_singleton. constructor.
  - rewrite list_elem_of_In, in_flat_map.
    intros (x & Hx & Hin). apply in_map_iff in Hin as (tl & <- & Htl).
    constructor; [by apply list_elem_of_In|].
    by apply IH, list_elem_of_In.
Qed.

Lemma product_singletons (l : list str) :
  PyStr.product ((fun c => [c]) <$> l) = [l].
Proof.
  induction l as [|c l IH]; [done|].
  rewrite fmap_cons. simpl. by rewrite IH.
Qed.

(** ** The substitution table *)

(** Every alternative of the table is a single character. *)
Lemma LEET_MAP_single (key : str) (alts : list str) :
  LEET_MAP !! key = Some alts →
  Forall (fun c => length c = 1%nat) alts.
Proof.
  revert key alts. change (map_Forall
    (fun _ alts => Forall (fun c => length c = 1%nat) alts) LEET_MAP).
  apply map_Forall_to_list. vm_compute. repeat constructor.
Qed.

Lemma elem_of_options_of (u : Unicode) (ch x : str) :
  x ∈ options_of u ch →
  x = ch ∨ ∃ alts, LEET_MAP !! PyStr.lower u ch = Some alts ∧ x ∈ alts.
Proof.
  unfold options_of. destruct (LEET_MAP !! PyStr.lower u ch) as [alts|] eqn:E.
  - intros [->|Hx]%elem_of_dedupe%elem_of_cons; [by left|right; eauto].
  - intros ->%list_elem_of_singleton. by left.
Qed.

Lemma options_of_single (u : Unicode) (ch x : str) :
  length ch = 1%nat → x ∈ options_of u ch → length x = 1%nat.
Proof.
  intros Hch [->|(alts & Halts & Hx)]%elem_of_options_of; [done|].
  apply LEET_MAP_single in Halts.
  by eapply (proj1 (Forall_forall _ _) Halts).
Qed.

(** ** generate_leet_variants *)

Lemma size_add_le (x : str) (X : gset str) :
  (size ({[ x ]} ∪ X) ≤ S (size X))%nat.
Proof.
  rewrite size_union_alt, size_singleton.
  apply le_n_S, subseteq_size, subseteq_difference_l. done.
Qed.

Lemma collect_variants_size (cap : Z) (variants : gset str) combos :
  set_len variants < cap →
  set_len (collect_variants cap variants combos) ≤ cap.
Proof.
  revert variants. induction combos as [|combo rest IH]; intros variants Hlt.
  - simpl. lia.
  - simpl. pose proof (size_add_le (PyStr.join combo) variants) as Hadd.
    destruct (Z.leb_spec cap (set_len ({[PyStr.join combo]} ∪ variants)))
      as [Hge|Hlt'].
    + unfold set_len in *. lia.
    + by apply IH.
Qed.

Lemma elem_of_collect_variants (cap : Z) (variants : gset str) combos x :
  x ∈ collect_variants cap variants combos →
  x ∈ variants ∨ ∃ combo, combo ∈ combos ∧ x = PyStr.join combo.
Proof.
  revert variants. induction combos as [|combo rest IH]; intros variants.
  - simpl. by left.
  - simpl. destruct (cap <=? set_len ({[PyStr.join combo]} ∪ variants)).
    + intros [->%elem_of_singleton|Hx]%elem_of_union; [right|by left].
      exists combo. split; [left|done].
    + intros [[->%elem_of_singleton|Hx]%elem_of_union|(c & Hc & ->)]%IH.
      * right. exists combo. split; [left|done].
      * by left.
      * right. exists c. split; [by right|done].
Qed.

(** Every variant is the word with some positions replaced by one of the
    alternatives of that position. *)
Lemma elem_of_generate_leet_variants (u : Unicode) (word : str) (cap : Z)
    (v : str) :
  v ∈ generate_leet_variants u word cap →
  ∃ combo, Forall2 (fun x ch => x ∈ options_of u ch) combo (PyStr.chars word)
           ∧ v = PyStr.join combo.
Proof.
  unfold generate_leet_variants. case_decide; [set_solver|].
  intros [Hv|(combo & Hcombo & ->)]%elem_of_collect_variants; [set_solver|].
  exists combo. split; [|done].
  apply elem_of_product in Hcombo. unfold choices_of in Hcombo.
  clear -Hcombo. revert combo Hcombo.
  induction (PyStr.chars word) as [|ch chs IH]; intros combo Hcombo;
    inversion Hcombo; subst; constructor; auto.
Qed.

Lemma generate_leet_variants_length (u : Unicode) (word : str) (cap : Z)
    (v : str) :
  v ∈ generate_leet_variants u word cap → length v = length word.
Proof.
  intros (combo & Hcombo & ->)%elem_of_generate_leet_variants.
  rewrite length_join_single.
  - rewrite <-length_chars. by eapply Forall2_length.
  - pose proof (chars_single word) as Hchars.
    induction Hcombo as [|x ch combo chs Hx _ IH]; constructor.
    + inversion Hchars; subst. by eapply options_of_single.
    + inversion Hchars; subst. by apply IH.
Qed.

Lemma options_of_ascii_only (u : Unicode) (ch : str) :
  Forall PyStr.is_ascii ch → options_of u ch = options_of ascii_only ch.
Proof. intros H. unfold options_of. by rewrite (lower_ascii_only u ch H). Qed.

Lemma choices_of_ascii_only (u : Unicode) (word : str) :
  Forall PyStr.is_ascii word → choices_of u word = choices_of ascii_only word.
Proof.
  unfold choices_of, PyStr.chars.
  induction 1 as [|c s Hc _ IH]; [done|].
  rewrite !fmap_cons, IH. f_equal.
  apply options_of_ascii_only. by constructor.
Qed.

(** The leet variants of an ASCII word do not depend on the database. *)
Lemma generate_leet_variants_ascii_only (u : Unicode) (word : str) (cap : Z) :
  Forall PyStr.is_ascii word →
  generate_leet_variants u word cap = generate_leet_variants ascii_only word cap.
Proof.
  intros H. unfold generate_leet_variants.
  by rewrite (choices_of_ascii_only u word H).
Qed.

(** C2: for every word and every positive cap, the set returned by
    [generate_leet_variants word cap] has at most [cap] elements. *)
Theorem generate_leet_variants_size_le_cap (u : Unicode) (word : str)
    (cap : Z) :
  0 < cap → set_len (generate_leet_variants u word cap) ≤ cap.
Proof.
  intros Hcap. unfold generate_leet_variants. case_decide.
  - unfold set_len. rewrite size_empty. lia.
  - apply collect_variants_size. unfold set_len. rewrite size_empty. lia.
Qed.

Lemma generate_leet_variants_size_le_cap_witness :
  0 < 3 ∧ set_len (generate_leet_variants ascii_only (py "Ab") 3) ≤ 3.
Proof.
  split; [lia|].
  apply (generate_leet_variants_size_le_cap ascii_only (py "Ab") 3). lia.
Defined.

(** C10: for every non-empty word and every positive cap, every string of
    [generate_leet_variants word cap] has the length of [word]. *)
Theorem generate_leet_variants_same_length (u : Unicode) (word : str) (cap : Z)
    (v : str) :
  word ≠ [] → 0 < cap → v ∈ generate_leet_variants u word cap →
  PyStr.len v = PyStr.len word.
Proof.
  intros _ _ Hv. unfold PyStr.len.
  by rewrite (generate_leet_variants_length u word cap v Hv).
Qed.

Lemma generate_leet_variants_same_length_witness :
  py "Ab" ≠ [] ∧ 0 < 3
  ∧ py "A8" ∈ generate_leet_variants ascii_only (py "Ab") 3
  ∧ PyStr.len (py "A8") = PyStr.len (py "Ab").
Proof.
  assert (H1 : (py "Ab") ≠ []) by discriminate.
  assert (H2 : 0 < 3) by lia.
  assert (H3 : (py "A8") ∈ generate_leet_variants ascii_only (py "Ab") 3)
    by (vm_compute; reflexivity).
  split; [exact H1|]. split; [exact H2|]. split; [exact H3|].
  exact (generate_leet_variants_same_length ascii_only (py "Ab") 3 (py "A8")
           H1 H2 H3).
Defined.

(** The claim that [generate_leet_variants "ab" 100] is the three-element
    set of "ab", "@b" and "4b" fails: the table also maps "b" to "8".  (The
    word is ASCII text: by [generate_leet_variants_ascii_only] the set is
    that of every database.) *)
Lemma generate_leet_variants_ab_not_three :
  size (generate_leet_variants ascii_only (py "ab") 100) ≠ 3%nat
  ∧ generate_leet_variants ascii_only (py "ab") 100
    ≠ {[ py "ab"; py "@b"; py "4b" ]}.
Proof.
  assert (Hsize :
    size (generate_leet_variants ascii_only (py "ab") 100) = 6%nat)
    by (vm_compute; reflexivity).
  split.
  - rewrite Hsize. lia.
  - intros Heq. rewrite Heq in Hsize. clear Heq.
    vm_compute in Hsize. discriminate Hsize.
Qed.

(** C4 (amended): [generate_leet_variants "ab" 100] is the full product of
    the three alternatives of "a" and the two alternatives of "b": the six
    strings "ab", "a8", "@b", "@8", "4b" and "48". *)
Theorem generate_leet_variants_ab (u : Unicode) :
  generate_leet_variants u (py "ab") 100
  = {[ py "ab"; py "a8"; py "@b"; py "@8"; py "4b"; py "48" ]}
  ∧ size (generate_leet_variants u (py "ab") 100) = 6%nat.
Proof.
  rewrite (generate_leet_variants_ascii_only u) by ascii_text.
  split; vm_compute; reflexivity.
Qed.

Lemma choices_of_identity (u : Unicode) (word : str) :
  Forall (fun ch => LEET_MAP !! PyStr.lower u ch = None) (PyStr.chars word) →
  choices_of u word = (fun c => [c]) <$> PyStr.chars word.
Proof.
  unfold choices_of. induction 1 as [|ch chs Hch _ IH]; [done|].
  rewrite !fmap_cons, IH. unfold options_of at 1. by rewrite Hch.
Qed.

(** C5: for every positive cap, [generate_leet_variants "" cap] is the empty
    set, and for every non-empty word none of whose characters has its
    lower-case form in [LEET_MAP], [generate_leet_variants word cap] is the
    singleton of the word. *)
Theorem generate_leet_variants_empty_and_identity (u : Unicode) (cap : Z) :
  0 < cap →
  generate_leet_variants u [] cap = ∅
  ∧ ∀ word : str,
      word ≠ [] →
      Forall (fun ch => LEET_MAP !! PyStr.lower u ch = None) (PyStr.chars word) →
      generate_leet_variants u word cap = {[ word ]}.
Proof.
  intros Hcap. split; [done|].
  intros word Hne Hnone. unfold generate_leet_variants.
  rewrite decide_False by done.
  rewrite (choices_of_identity u word Hnone), product_singletons.
  simpl. rewrite join_chars, (right_id_L ∅ (∪)).
  by destruct (cap <=? set_len {[word]}).
Qed.

Lemma generate_leet_variants_empty_and_identity_witness :
  generate_leet_variants ascii_only [] 500 = ∅
  ∧ generate_leet_variants ascii_only (py "Vy2k!") 500 = {[ py "Vy2k!" ]}.
Proof.
  assert (Hcap : 0 < 500) by lia.
  destruct (generate_leet_variants_empty_and_identity ascii_only 500 Hcap)
    as [He Hid].
  split; [exact He|].
  apply Hid; [discriminate|].
  repeat constructor.
Defined.

(** ** case_variations *)

Lemma elem_of_case_variations (u : Unicode) (ho : HashOrder) (word x : str) :
  x ∈ case_variations u ho word ↔
  x = word ∨ x = PyStr.lower u word ∨ x = PyStr.upper u word
  ∨ x = PyStr.capitalize u word.
Proof. unfold case_variations. rewrite elem_of_sorted. set_solver. Qed.

Lemma case_variations_ascii_only (u : Unicode) (ho : HashOrder) (word : str) :
  Forall PyStr.is_ascii word →
  case_variations u ho word = case_variations ascii_only canonical_order word.
Proof.
  intros H. rewrite (case_variations_canonical u ho canonical_order).
  unfold case_variations.
  by rewrite (lower_ascii_only u word H), (upper_ascii_only u word H),
             (capitalize_ascii_only u word H).
Qed.

(** The claim that [case_variations] of the empty string is empty fails:
    the four [add] calls put the empty string itself into the set.  (The
    empty string is ASCII text: by [case_variations_ascii_only] the result
    is that of every database and iteration order.) *)
Lemma case_variations_empty_not_nil :
  case_variations ascii_only canonical_order [] ≠ [].
Proof. vm_compute. discriminate. Qed.

(** C6 (amended): [case_variations ""] is the one-element list of the empty
    string; for every word the result is non-empty, has no duplicates and
    consists of the word unchanged, lower-cased, upper-cased and
    capitalized; and [case_variations "Vijay"] holds exactly "VIJAY",
    "Vijay" and "vijay". *)
Theorem case_variations_spec (u : Unicode) (ho : HashOrder) :
  case_variations u ho [] = [[]]
  ∧ (∀ word : str,
       case_variations u ho word ≠ []
       ∧ NoDup (case_variations u ho word)
       ∧ ∀ x : str,
           x ∈ case_variations u ho word ↔
           x = word ∨ x = PyStr.lower u word ∨ x = PyStr.upper u word
           ∨ x = PyStr.capitalize u word)
  ∧ case_variations u ho (py "Vijay")
    = [py "VIJAY"; py "Vijay"; py "vijay"].
Proof.
  split; [|split].
  - rewrite (case_variations_ascii_only u ho) by ascii_text.
    vm_compute. reflexivity.
  - intros word. split; [|split].
    + intros Hnil.
      assert (Hin : word ∈ case_variations u ho word)
        by (apply elem_of_case_variations; by left).
      rewrite Hnil in Hin. by apply elem_of_nil in Hin.
    + apply NoDup_sorted.
    + apply elem_of_case_variations.
  - rewrite (case_variations_ascii_only u ho) by ascii_text.
    vm_compute. reflexivity.
Qed.

(** ** build_base_words *)

(** Membership in the result of a loop that only adds to a set. *)
Lemma elem_of_foldl_add {B : Type} (f : gset str → B → gset str)
    (Q : B → str → Prop) :
  (∀ base b x, x ∈ f base b ↔ x ∈ base ∨ Q b x) →
  ∀ (l : list B) (base : gset str) (x : str),
    x ∈ foldl f base l ↔ x ∈ base ∨ ∃ b, b ∈ l ∧ Q b x.
Proof.
  intros Hf l. induction l as [|b l IH]; intros base x; simpl.
  - split; [by left|]. intros [?|(b & Hb & _)]; [done|].
    by apply elem_of_nil in Hb.
  - rewrite IH, Hf. split.
    + intros [[?|?]|(b' & Hb' & ?)]; [by left|right..].
      * exists b. split; [left|done].
      * exists b'. split; [by right|done].
    + intros [?|(b' & [->|Hb']%elem_of_cons & ?)].
      * by left; left.
      * by left; right.
      * right. by exists b'.
Qed.

Lemma elem_of_add_affixes (v : str) (base : gset str) (x : str) :
  x ∈ add_affixes v base ↔
  x ∈ base ∨ ∃ aff, aff ∈ affixes ∧ x = v ++ aff.
Proof.
  unfold add_affixes.
  apply (elem_of_foldl_add _ (fun aff x => x = v ++ aff)).
  intros. set_solver.
Qed.


Lemma elem_of_add_input (u : Unicode) (ho : HashOrder) base inp x :
  x ∈ add_input u ho base inp ↔ x ∈ base ∨ from_input u ho inp x.
Proof.
  unfold add_input, from_input. case_decide as Hemp.
  - rewrite Hemp. naive_solver.
  - rewrite (elem_of_foldl_add _ from_variant).
    + naive_solver.
    + intros b v y. rewrite elem_of_add_affixes. unfold from_variant.
      rewrite elem_of_union, elem_of_singleton. tauto.
Qed.

Lemma elem_of_add_pair (a : str) base (b x : str) :
  x ∈ add_pair a base b ↔ x ∈ base ∨ from_pair a b x.
Proof.
  unfold add_pair, from_pair. case_decide; [set_solver|naive_solver].
Qed.

Lemma elem_of_add_pairs (lowered : list str) base x :
  x ∈ add_pairs lowered base ↔
  x ∈ base ∨ ∃ a, a ∈ lowered ∧ ∃ b, b ∈ lowered ∧ from_pair a b x.
Proof.
  unfold add_pairs.
  apply (elem_of_foldl_add _
    (fun a x => ∃ b, b ∈ lowered ∧ from_pair a b x)).
  intros b a y. apply (elem_of_foldl_add _ (from_pair a)).
  intros. apply elem_of_add_pair.
Qed.

(** The base words are exactly the contributions of the inputs and of the
    ordered pairs of lowered inputs. *)
Lemma elem_of_build_base_words (u : Unicode) (ho : HashOrder)
    (inputs : list str) x :
  x ∈ build_base_words u ho inputs ↔
  (∃ inp, inp ∈ inputs ∧ from_input u ho inp x)
  ∨ (∃ a, a ∈ inputs_lower u inputs
        ∧ ∃ b, b ∈ inputs_lower u inputs ∧ from_pair a b x).
Proof.
  unfold build_base_words, base_set.
  rewrite elem_of_sorted, elem_of_add_pairs.
  rewrite (elem_of_foldl_add _ (from_input u ho))
    by (intros; apply elem_of_add_input).
  rewrite elem_of_empty. tauto.
Qed.

Lemma rstrip_is_ascii (u : Unicode) (s : str) :
  Forall PyStr.is_ascii s → Forall PyStr.is_ascii (PyStr.rstrip u s).
Proof.
  induction 1 as [|c s Hc Hs IH]; simpl; [constructor|].
  destruct (PyStr.rstrip u s).
  - destruct (PyStr.isspace u c); repeat constructor; done.
  - by constructor.
Qed.

Lemma strip_is_ascii (u : Unicode) (s : str) :
  Forall PyStr.is_ascii s → Forall PyStr.is_ascii (PyStr.strip u s).
Proof. intros H. by apply rstrip_is_ascii, lstrip_is_ascii. Qed.

Lemma add_input_ascii_only (u : Unicode) (ho : HashOrder) base inp :
  Forall PyStr.is_ascii inp →
  add_input u ho base inp = add_input ascii_only canonical_order base inp.
Proof.
  intros H. unfold add_input. rewrite (strip_ascii_only u inp H).
  case_decide; [done|].
  rewrite (case_variations_ascii_only u ho); [done|].
  by apply strip_is_ascii.
Qed.

Lemma inputs_lower_ascii_only (u : Unicode) (inputs : list str) :
  Forall (Forall PyStr.is_ascii) inputs →
  inputs_lower u inputs = inputs_lower ascii_only inputs.
Proof.
  intros H. unfold inputs_lower. apply Forall_fmap_ext.
  apply Forall_forall. intros x [_ Hx]%list_elem_of_filter.
  apply lower_ascii_only. by apply (proj1 (Forall_forall _ _) H).
Qed.

(** The base words of ASCII tokens do not depend on the database. *)
Lemma build_base_words_ascii_only (u : Unicode) (ho : HashOrder)
    (inputs : list str) :
  Forall (Forall PyStr.is_ascii) inputs →
  build_base_words u ho inputs
  = build_base_words ascii_only canonical_order inputs.
Proof.
  intros H. unfold build_base_words.
  rewrite (sorted_canonical ho canonical_order). f_equal.
  unfold base_set. rewrite (inputs_lower_ascii_only u inputs H). f_equal.
  generalize (∅ : gset str).
  induction H as [|inp inputs Hinp _ IH]; intros base; simpl; [done|].
  by rewrite (add_input_ascii_only u ho base inp Hinp), IH.
Qed.

(** C7: [build_base_words ["Tiger"; "2000"]] contains "tiger2000",
    "tiger2000123", "Tiger" and "Tiger123"; and for any two distinct
    lowered tokens whose lengths add up to at most 30, both concatenation
    orders are base words, with and without the "123" affix. *)
Theorem build_base_words_pairwise (u : Unicode) (ho : HashOrder) :
  ((py "tiger2000") ∈ build_base_words u ho [py "Tiger"; py "2000"]
   ∧ (py "tiger2000123") ∈ build_base_words u ho [py "Tiger"; py "2000"]
   ∧ (py "Tiger") ∈ build_base_words u ho [py "Tiger"; py "2000"]
   ∧ (py "Tiger123") ∈ build_base_words u ho [py "Tiger"; py "2000"])
  ∧ ∀ (inputs : list str) (a b : str),
      a ∈ inputs_lower u inputs → b ∈ inputs_lower u inputs →
      a ≠ b → PyStr.len a + PyStr.len b ≤ 30 →
      a ++ b ∈ build_base_words u ho inputs
      ∧ (a ++ b) ++ (py "123") ∈ build_base_words u ho inputs
      ∧ b ++ a ∈ build_base_words u ho inputs
      ∧ (b ++ a) ++ (py "123") ∈ build_base_words u ho inputs.
Proof.
  split.
  - rewrite (build_base_words_ascii_only u ho) by ascii_text.
    unfold build_base_words.
    repeat split; apply elem_of_sorted; vm_compute; reflexivity.
  - intros inputs a b Ha Hb Hne Hlen.
    repeat split; apply elem_of_build_base_words; right.
    + exists a. split; [done|]. exists b. split; [done|].
      unfold from_pair. auto.
    + exists a. split; [done|]. exists b. split; [done|].
      unfold from_pair. auto.
    + exists b. split; [done|]. exists a. split; [done|].
      unfold from_pair. repeat split; [congruence|lia|auto].
    + exists b. split; [done|]. exists a. split; [done|].
      unfold from_pair. repeat split; [congruence|lia|auto].
Qed.

Lemma build_base_words_pairwise_witness :
  py "2000tiger"
    ∈ build_base_words ascii_only canonical_order [py "Tiger"; py "2000"]
  ∧ py "2000tiger123"
    ∈ build_base_words ascii_only canonical_order [py "Tiger"; py "2000"].
Proof.
  destruct (build_base_words_pairwise ascii_only canonical_order)
    as [_ Hpairs].
  destruct (Hpairs [py "Tiger"; py "2000"] (py "tiger") (py "2000"))
    as (_ & _ & H1 & H2).
  - vm_compute. repeat constructor.
  - vm_compute. repeat constructor.
  - discriminate.
  - vm_compute. discriminate.
  - split; [exact H1|exact H2].
Defined.

(** ** generate_wordlist: where the entries come from *)


Lemma elem_of_add_years (out_cap : Z) (w : str) (ys : list Z)
    (all_words : gset str) (x : str) :
  x ∈ add_years out_cap w ys all_words →
  x ∈ all_words
  ∨ ∃ year, year ∈ ys
      ∧ (x = w ++ PyStr.of_int year ∨ x = PyStr.of_int year ++ w).
Proof.
  revert all_words. induction ys as [|y ys IH]; intros all_words; simpl.
  - by left.
  - destruct (out_cap <=? set_len all_words); [by left|].
    intros [Hx|(year & Hyear & Hx)]%IH.
    + apply elem_of_union in Hx as [->%elem_of_singleton|Hx].
      { right. exists y. split; [left|by right]. }
      apply elem_of_union in Hx as [->%elem_of_singleton|Hx]; [|by left].
      right. exists y. split; [left|by left].
    + right. exists year. split; [by right|done].
Qed.

Lemma elem_of_add_endings (out_cap : Z) (w : str)
    (all_words : gset str) (x : str) :
  x ∈ add_endings out_cap w all_words →
  x ∈ all_words ∨ x = w ++ (py "007") ∨ x = w ++ (py "1234").
Proof.
  unfold add_endings. destruct (set_len all_words <? out_cap); [|by left].
  rewrite !elem_of_union, !elem_of_singleton. tauto.
Qed.

Lemma expand_words_cons (u : Unicode) (out_cap : Z) (w : str)
    (rest : list str) (all_words : gset str) :
  expand_words u out_cap (w :: rest) all_words
  = if 40 <? PyStr.len w then expand_words u out_cap rest all_words
    else
      let all3 := add_endings out_cap w
                    (add_years out_cap w years
                       (all_words ∪ generate_leet_variants u w 500)) in
      if out_cap <=? set_len all3 then all3
      else expand_words u out_cap rest all3.
Proof. reflexivity. Qed.

Lemma elem_of_expand_words (u : Unicode) (out_cap : Z)
    (base_words : list str) (all_words : gset str) (x : str) :
  x ∈ expand_words u out_cap base_words all_words →
  x ∈ all_words ∨ ∃ w, w ∈ base_words ∧ derived_from u w x.
Proof.
  revert all_words.
  induction base_words as [|w rest IH]; intros all_words; [by left|].
  rewrite expand_words_cons. cbv zeta.
  assert (Hstep : ∀ y,
    y ∈ add_endings out_cap w
          (add_years out_cap w years
             (all_words ∪ generate_leet_variants u w 500)) →
    y ∈ all_words ∨ derived_from u w y).
  { intros y [Hy|Hy]%elem_of_add_endings; [|right; unfold derived_from; tauto].
    apply elem_of_add_years in Hy as [Hy|Hy];
      [|right; unfold derived_from; tauto].
    apply elem_of_union in Hy as [Hy|Hy]; [by left|].
    right. by left. }
  destruct (40 <? PyStr.len w).
  - intros [?|(w' & Hw' & ?)]%IH; [by left|].
    right. exists w'. split; [by right|done].
  - destruct (out_cap <=? _).
    + intros [?|?]%Hstep; [by left|].
      right. exists w. split; [left|done].
    + intros [[?|?]%Hstep|(w' & Hw' & ?)]%IH.
      * by left.
      * right. exists w. split; [left|done].
      * right. exists w'. split; [by right|done].
Qed.

(** Every entry of the wordlist is a base word or is derived from one. *)
Lemma elem_of_generate_wordlist_capped (out_cap : Z) (u : Unicode)
    (ho : HashOrder)
    (inputs : list str) (x : str) :
  x ∈ generate_wordlist_capped out_cap u ho inputs →
  ∃ w, w ∈ build_base_words u ho inputs ∧ (x = w ∨ derived_from u w x).
Proof.
  unfold generate_wordlist_capped.
  set (base_words := build_base_words u ho inputs).
  set (all_words := expand_words u _ _ _).
  intros Hx.
  assert (Hall : x ∈ all_words).
  { apply (elem_of_sorted ho).
    destruct (out_cap <? _); [|done].
    by apply (subseteq_take (Z.to_nat out_cap)). }
  apply elem_of_expand_words in Hall as [Hb|(w & Hw & Hd)].
  - apply elem_of_list_to_set in Hb. exists x. split; [done|by left].
  - exists w. split; [done|by right].
Qed.

(** ** The wordlist of ASCII tokens *)

Lemma ascii_lower_is_ascii (c : N) :
  PyStr.is_ascii c → PyStr.is_ascii (PyStr.ascii_lower c).
Proof.
  unfold PyStr.is_ascii, PyStr.ascii_lower. intros Hc.
  destruct (_ && _)%N eqn:E; [|done].
  apply andb_true_iff in E as [?%N.leb_le ?%N.leb_le]. lia.
Qed.

Lemma ascii_upper_is_ascii (c : N) :
  PyStr.is_ascii c → PyStr.is_ascii (PyStr.ascii_upper c).
Proof.
  unfold PyStr.is_ascii, PyStr.ascii_upper. intros Hc.
  destruct (_ && _)%N; lia.
Qed.

Lemma lower_is_ascii (u : Unicode) (s : str) :
  Forall PyStr.is_ascii s → Forall PyStr.is_ascii (PyStr.lower u s).
Proof.
  intros H. rewrite (PyStr.lower_ascii u s H). apply Forall_fmap.
  eapply Forall_impl; [exact H|]. apply ascii_lower_is_ascii.
Qed.

Lemma upper_is_ascii (u : Unicode) (s : str) :
  Forall PyStr.is_ascii s → Forall PyStr.is_ascii (PyStr.upper u s).
Proof.
  intros H. rewrite (PyStr.upper_ascii u s H). apply Forall_fmap.
  eapply Forall_impl; [exact H|]. apply ascii_upper_is_ascii.
Qed.

Lemma capitalize_is_ascii (u : Unicode) (s : str) :
  Forall PyStr.is_ascii s → Forall PyStr.is_ascii (PyStr.capitalize u s).
Proof.
  intros H. rewrite (PyStr.capitalize_ascii u s H).
  destruct H as [|c s Hc Hs]; simpl; constructor.
  - by apply ascii_upper_is_ascii.
  - apply Forall_fmap. eapply Forall_impl; [exact Hs|].
    apply ascii_lower_is_ascii.
Qed.

Lemma affixes_is_ascii : Forall (Forall PyStr.is_ascii) affixes.
Proof. ascii_text. Qed.

Lemma build_base_words_is_ascii (u : Unicode) (ho : HashOrder)
    (inputs : list str) :
  Forall (Forall PyStr.is_ascii) inputs →
  Forall (Forall PyStr.is_ascii) (build_base_words u ho inputs).
Proof.
  intros Hin. apply Forall_forall. intros x
    [(inp & Hinp & _ & v & Hv & Hx)|(a & Ha & b & Hb & _ & _ & Hx)]
    %elem_of_build_base_words.
  - assert (Hs : Forall PyStr.is_ascii (PyStr.strip u inp)).
    { apply strip_is_ascii. by apply (proj1 (Forall_forall _ _) Hin). }
    assert (Hvf : Forall PyStr.is_ascii v).
    { apply elem_of_case_variations in Hv as [-> | [-> | [-> | ->]]];
        auto using lower_is_ascii, upper_is_ascii, capitalize_is_ascii. }
    destruct Hx as [->|(aff & Haff & ->)]; [done|].
    apply Forall_app. split; [done|].
    by apply (proj1 (Forall_forall _ _) affixes_is_ascii).
  - assert (Hlow : ∀ c, c ∈ inputs_lower u inputs → Forall PyStr.is_ascii c).
    { unfold inputs_lower. intros c
        (y & -> & [_ Hy]%list_elem_of_filter)%list_elem_of_fmap.
      apply lower_is_ascii. by apply (proj1 (Forall_forall _ _) Hin). }
    apply Hlow in Ha, Hb.
    destruct Hx as [->| ->]; rewrite ?Forall_app; repeat split; try done.
    ascii_text.
Qed.

Lemma expand_words_ascii_only (u : Unicode) (out_cap : Z)
    (base_words : list str) (all_words : gset str) :
  Forall (Forall PyStr.is_ascii) base_words →
  expand_words u out_cap base_words all_words
  = expand_words ascii_only out_cap base_words all_words.
Proof.
  intros H. revert all_words.
  induction H as [|w rest Hw _ IH]; intros all_words; [done|].
  rewrite !expand_words_cons. cbv zeta.
  rewrite (generate_leet_variants_ascii_only u w 500 Hw).
  destruct (40 <? PyStr.len w); [apply IH|].
  destruct (out_cap <=? _); [done|apply IH].
Qed.

(** The wordlist of ASCII tokens does not depend on the database (nor on
    the iteration order): evaluating it with [ascii_only] gives the
    wordlist of every run. *)
Lemma generate_wordlist_ascii_only (u : Unicode) (ho : HashOrder)
    (tokens : list str) :
  Forall (Forall PyStr.is_ascii) tokens →
  generate_wordlist u ho tokens
  = generate_wordlist ascii_only canonical_order tokens.
Proof.
  intros H. unfold generate_wordlist, generate_wordlist_capped.
  rewrite (build_base_words_ascii_only u ho tokens H).
  rewrite (expand_words_ascii_only u)
    by (by apply build_base_words_is_ascii).
  by rewrite (sorted_canonical ho canonical_order).
Qed.

(** ** Every entry is non-empty *)

Lemma app_nonempty_l (s1 s2 : str) : s1 ≠ [] → s1 ++ s2 ≠ [].
Proof. by destruct s1. Qed.

Lemma app_nonempty_r (s1 s2 : str) : s2 ≠ [] → s1 ++ s2 ≠ [].
Proof. destruct s1; [done|]. intros _. discriminate. Qed.

Lemma inputs_lower_nonempty (u : Unicode) (inputs : list str) (a : str) :
  a ∈ inputs_lower u inputs → a ≠ [].
Proof.
  unfold inputs_lower.
  intros (x & -> & [Hx _]%list_elem_of_filter)%list_elem_of_fmap.
  by apply PyStr.lower_nonempty.
Qed.

Lemma build_base_words_nonempty (u : Unicode) (ho : HashOrder)
    (inputs : list str) w :
  w ∈ build_base_words u ho inputs → w ≠ [].
Proof.
  intros [(inp & _ & Hne & v & Hv & Hw)|(a & Ha & b & _ & _ & _ & Hw)]
    %elem_of_build_base_words.
  - assert (Hvne : v ≠ []).
    { apply elem_of_case_variations in Hv as [-> | [-> | [-> | ->]]];
        auto using PyStr.lower_nonempty, PyStr.upper_nonempty,
          PyStr.capitalize_nonempty. }
    destruct Hw as [->|(aff & _ & ->)]; [done|by apply app_nonempty_l].
  - apply inputs_lower_nonempty in Ha.
    destruct Hw as [->| ->]; repeat apply app_nonempty_l; done.
Qed.

Lemma derived_from_nonempty (u : Unicode) (w x : str) :
  w ≠ [] → derived_from u w x → x ≠ [].
Proof.
  intros Hw [Hx|[(year & _ & [->| ->])|[->| ->]]].
  - apply generate_leet_variants_length in Hx.
    destruct x, w; simpl in *; congruence.
  - by apply app_nonempty_l.
  - by apply app_nonempty_r.
  - by apply app_nonempty_l.
  - by apply app_nonempty_l.
Qed.

Lemma generate_wordlist_capped_nonempty (out_cap : Z) (u : Unicode)
    (ho : HashOrder)
    (inputs : list str) (x : str) :
  x ∈ generate_wordlist_capped out_cap u ho inputs → x ≠ [].
Proof.
  intros (w & Hw & Hx)%elem_of_generate_wordlist_capped.
  apply build_base_words_nonempty in Hw.
  destruct Hx as [->|Hx]; [done|by eapply derived_from_nonempty].
Qed.

(** C8: for every token list whose tokens are non-empty after stripping,
    every string of the generated wordlist is non-empty. *)
Theorem generate_wordlist_entries_nonempty (u : Unicode) (ho : HashOrder)
    (tokens : list str) :
  Forall (fun t => PyStr.strip u t ≠ []) tokens →
  Forall (fun w => w ≠ []) (generate_wordlist u ho tokens).
Proof.
  intros _. apply Forall_forall. intros w.
  apply generate_wordlist_capped_nonempty.
Qed.

Lemma generate_wordlist_entries_nonempty_witness :
  Forall (fun w => w ≠ [])
    (generate_wordlist ascii_only canonical_order [py " xy "; py "z"]).
Proof.
  apply generate_wordlist_entries_nonempty.
  repeat constructor; vm_compute; discriminate.
Defined.

(** ** Entries without line feeds *)

Lemma newline_free_app (s1 s2 : str) :
  newline_free s1 → newline_free s2 → newline_free (s1 ++ s2).
Proof. unfold newline_free. rewrite not_elem_of_app. tauto. Qed.

Lemma newline_free_lower (u : Unicode) (s : str) :
  newline_free s → newline_free (PyStr.lower u s).
Proof. intros Hs Hin. by apply Hs, (PyStr.lower_newline u). Qed.

Lemma newline_free_upper (u : Unicode) (s : str) :
  newline_free s → newline_free (PyStr.upper u s).
Proof. intros Hs Hin. by apply Hs, (PyStr.upper_newline u). Qed.

Lemma newline_free_capitalize (u : Unicode) (s : str) :
  newline_free s → newline_free (PyStr.capitalize u s).
Proof. intros Hs Hin. by apply Hs, (PyStr.capitalize_newline u). Qed.

Lemma elem_of_lstrip (u : Unicode) (s : str) (c : N) :
  c ∈ PyStr.lstrip u s → c ∈ s.
Proof.
  induction s as [|a s IH]; simpl; [done|].
  destruct (PyStr.isspace u a); [|done]. intros Hc. right. by apply IH.
Qed.

Lemma elem_of_rstrip (u : Unicode) (s : str) (c : N) :
  c ∈ PyStr.rstrip u s → c ∈ s.
Proof.
  induction s as [|a s IH]; simpl; [done|].
  destruct (PyStr.rstrip u s) as [|b r].
  - destruct (PyStr.isspace u a); [by intros ?%elem_of_nil|].
    intros ->%list_elem_of_singleton. left.
  - intros [->|Hc]%elem_of_cons; [left|right; by apply IH].
Qed.

Lemma newline_free_strip (u : Unicode) (s : str) :
  newline_free s → newline_free (PyStr.strip u s).
Proof.
  intros Hs Hin. apply Hs. by eapply elem_of_lstrip, elem_of_rstrip.
Qed.

Lemma newline_free_join (parts : list str) :
  Forall newline_free parts → newline_free (PyStr.join parts).
Proof.
  induction 1 as [|c parts Hc _ IH]; simpl; [apply not_elem_of_nil|].
  by apply newline_free_app.
Qed.

Lemma newline_free_chars (s : str) :
  newline_free s → Forall newline_free (PyStr.chars s).
Proof.
  unfold newline_free, PyStr.chars. intros Hs.
  apply Forall_fmap, Forall_forall. intros c Hc.
  simpl. rewrite list_elem_of_singleton. intros <-. done.
Qed.

#[global] Instance newline_free_dec (s : str) : Decision (newline_free s).
Proof. unfold newline_free. apply _. Defined.

(** No alternative of the table holds a line feed. *)
Lemma LEET_MAP_newline_free (key : str) (alts : list str) :
  LEET_MAP !! key = Some alts → Forall newline_free alts.
Proof.
  revert key alts.
  change (map_Forall (fun _ alts => Forall newline_free alts) LEET_MAP).
  apply (bool_decide_unpack _). vm_compute. exact I.
Qed.

Lemma newline_free_generate_leet_variants (u : Unicode) (w : str) (cap : Z)
    (v : str) :
  newline_free w → v ∈ generate_leet_variants u w cap → newline_free v.
Proof.
  intros Hw (combo & Hcombo & ->)%elem_of_generate_leet_variants.
  apply newline_free_join. apply newline_free_chars in Hw.
  induction Hcombo as [|x ch combo chs Hx _ IH]; [constructor|].
  inversion Hw as [|?? Hch Hchs]; subst. constructor; [|by apply IH].
  apply elem_of_options_of in Hx as [->|(alts & Halts & Hx)]; [done|].
  apply LEET_MAP_newline_free in Halts.
  by apply (proj1 (Forall_forall _ _) Halts).
Qed.

Lemma newline_free_affixes : Forall newline_free affixes.
Proof. apply (bool_decide_unpack _). vm_compute. exact I. Qed.

Lemma newline_free_years :
  Forall (fun year => newline_free (PyStr.of_int year)) years.
Proof. apply (bool_decide_unpack _). vm_compute. exact I. Qed.

Lemma newline_free_inputs_lower (u : Unicode) (inputs : list str) (a : str) :
  Forall newline_free inputs → a ∈ inputs_lower u inputs → newline_free a.
Proof.
  unfold inputs_lower. intros Hin
    (x & -> & [_ Hx]%list_elem_of_filter)%list_elem_of_fmap.
  apply newline_free_lower.
  by apply (proj1 (Forall_forall _ _) Hin).
Qed.

Lemma newline_free_build_base_words (u : Unicode) (ho : HashOrder)
    (inputs : list str) w :
  Forall newline_free inputs →
  w ∈ build_base_words u ho inputs → newline_free w.
Proof.
  intros Hin
    [(inp & Hinp & _ & v & Hv & Hw)|(a & Ha & b & Hb & _ & _ & Hw)]
    %elem_of_build_base_words.
  - assert (Hs : newline_free (PyStr.strip u inp)).
    { apply newline_free_strip. by apply (proj1 (Forall_forall _ _) Hin). }
    assert (Hvf : newline_free v).
    { apply elem_of_case_variations in Hv as [-> | [-> | [-> | ->]]];
        auto using newline_free_lower, newline_free_upper,
                   newline_free_capitalize. }
    destruct Hw as [->|(aff & Haff & ->)]; [done|].
    apply newline_free_app; [done|].
    by apply (proj1 (Forall_forall _ _) newline_free_affixes).
  - apply (newline_free_inputs_lower _ _ _ Hin) in Ha, Hb.
    destruct Hw as [->| ->]; repeat apply newline_free_app; try done.
    apply (bool_decide_unpack _). vm_compute. exact I.
Qed.

Lemma newline_free_derived_from (u : Unicode) (w x : str) :
  newline_free w → derived_from u w x → newline_free x.
Proof.
  intros Hw [Hx|[(year & Hyear & Hx)|[->| ->]]].
  - by eapply newline_free_generate_leet_variants.
  - apply (proj1 (Forall_forall _ _) newline_free_years) in Hyear.
    destruct Hx as [->| ->]; by apply newline_free_app.
  - apply newline_free_app; [done|].
    apply (bool_decide_unpack _). vm_compute. exact I.
  - apply newline_free_app; [done|].
    apply (bool_decide_unpack _). vm_compute. exact I.
Qed.

Lemma read_lines_entry (item rest : str) :
  newline_free item →
  read_lines (item ++ newline ++ rest) = item :: read_lines rest.
Proof.
  unfold newline_free.
  induction item as [|c item IH]; intros Hitem.
  - reflexivity.
  - apply not_elem_of_cons in Hitem as [Hc Hitem].
    change ((c :: item) ++ newline ++ rest)
      with (c :: (item ++ newline ++ rest)).
    cbn [read_lines]. rewrite decide_False by done.
    by rewrite (IH Hitem).
Qed.

Lemma read_write_lines (items : list str) :
  Forall newline_free items → read_lines (write_lines items) = items.
Proof.
  induction 1 as [|item items Hitem _ IH]; [done|].
  unfold write_lines. cbn [foldr]. fold (write_lines items).
  by rewrite read_lines_entry, IH.
Qed.



(** * Further properties of the generation engine *)

(** ** The enumeration of generate_leet_variants *)

Lemma dedupe_go_spec (seen l : list str) :
  NoDup (PyStr.dedupe_go seen l)
  ∧ ∀ x, x ∈ PyStr.dedupe_go seen l ↔ x ∈ l ∧ x ∉ seen.
Proof.
  revert seen. induction l as [|y l IH]; intros seen; simpl.
  - split; [constructor|]. intros x. rewrite elem_of_nil. tauto.
  - case_decide as Hy.
    + destruct (IH seen) as [Hnd Hin]. split; [done|].
      intros x. rewrite Hin, elem_of_cons. naive_solver.
    + destruct (IH (y :: seen)) as [Hnd Hin]. split.
      * constructor; [|done]. rewrite Hin, elem_of_cons. tauto.
      * intros x. rewrite !elem_of_cons, Hin, elem_of_cons.
        destruct (decide (x = y)); naive_solver.
Qed.

Lemma NoDup_options_of (u : Unicode) (ch : str) : NoDup (options_of u ch).
Proof.
  unfold options_of. destruct (LEET_MAP !! PyStr.lower u ch).
  - apply dedupe_go_spec.
  - apply NoDup_singleton.
Qed.

Lemma options_of_head (u : Unicode)
    (ch : str) : ∃ tl, options_of u ch = ch :: tl.
Proof.
  unfold options_of. destruct (LEET_MAP !! PyStr.lower u ch) as [alts|].
  - unfold PyStr.dedupe. cbn [PyStr.dedupe_go].
    case_decide as Hin; [by apply elem_of_nil in Hin|eauto].
  - eauto.
Qed.

Lemma options_of_allowed (u : Unicode) (ch x : str) :
  x ∈ options_of u ch ↔ allowed_at u x ch.
Proof.
  unfold allowed_at. split; [apply elem_of_options_of|].
  unfold options_of. intros [->|(alts & -> & Hx)].
  - destruct (LEET_MAP !! PyStr.lower u ch).
    + apply dedupe_go_spec. split; [left|apply not_elem_of_nil].
    + left.
  - apply dedupe_go_spec. split; [by right|apply not_elem_of_nil].
Qed.

Lemma product_cons (pool : list str) (rest : list (list str)) combo :
  combo ∈ PyStr.product (pool :: rest) ↔
  ∃ x tl, combo = x :: tl ∧ x ∈ pool ∧ tl ∈ PyStr.product rest.
Proof.
  simpl. rewrite list_elem_of_In, in_flat_map. split.
  - intros (x & Hx & Hin). apply in_map_iff in Hin as (tl & <- & Htl).
    exists x, tl. by rewrite !list_elem_of_In.
  - intros (x & tl & -> & Hx & Htl). exists x.
    rewrite <-list_elem_of_In. split; [done|].
    apply in_map, list_elem_of_In, Htl.
Qed.

Lemma elem_of_product_iff (pools : list (list str)) (combo : list str) :
  combo ∈ PyStr.product pools ↔ Forall2 (fun x pool => x ∈ pool) combo pools.
Proof.
  split; [apply elem_of_product|].
  induction 1 as [|x pool combo pools Hx _ IH]; [left|].
  apply product_cons. eauto.
Qed.

Lemma product_head (pools : list (list str)) (heads : list str) :
  Forall2 (fun h pool => ∃ tl, pool = h :: tl) heads pools →
  ∃ others, PyStr.product pools = heads :: others.
Proof.
  induction 1 as [|h pool heads pools [tl ->] _ [others IH]]; simpl; [eauto|].
  rewrite IH. simpl. eauto.
Qed.

Lemma length_product (pools : list (list str)) :
  Z.of_nat (length (PyStr.product pools)) = count_combinations pools.
Proof.
  induction pools as [|pool pools IH]; simpl; [done|].
  rewrite <-IH. generalize (PyStr.product pools). intros combos.
  induction pool as [|x pool IHp]; simpl; [lia|].
  rewrite List.length_app, List.length_map. lia.
Qed.

Lemma NoDup_product (pools : list (list str)) :
  Forall NoDup pools → NoDup (PyStr.product pools).
Proof.
  induction 1 as [|pool pools Hpool _ IH]; simpl; [apply NoDup_singleton|].
  induction Hpool as [|x pool Hx _ IHp]; simpl; [constructor|].
  apply NoDup_app. split; [|split].
  - rewrite <-(list_fmap_id (PyStr.product pools)) in IH.
    clear -IH. revert IH. generalize (PyStr.product pools).
    intros combos. rewrite list_fmap_id. intros Hnd.
    induction Hnd as [|c combos Hc _ IHc]; simpl; constructor; [|done].
    rewrite list_elem_of_In, in_map_iff.
    intros (c' & [= ->] & Hc'). by apply Hc, list_elem_of_In.
  - intros combo Hin1 Hin2.
    apply list_elem_of_In, in_map_iff in Hin1 as (tl & <- & _).
    apply list_elem_of_In, in_flat_map in Hin2 as (y & Hy & Hin2).
    apply in_map_iff in Hin2 as (tl' & [= -> _] & _).
    by apply Hx, list_elem_of_In.
  - done.
Qed.

Lemma join_single_inj (l1 l2 : list str) :
  Forall (fun c => length c = 1%nat) l1 →
  Forall (fun c => length c = 1%nat) l2 →
  PyStr.join l1 = PyStr.join l2 → l1 = l2.
Proof.
  intros H1. revert l2. induction H1 as [|c1 l1 Hc1 _ IH]; intros l2 H2 Heq.
  - destruct H2 as [|c2 l2 Hc2 _]; [done|].
    destruct c2 as [|a [|??]]; simplify_eq/=.
  - destruct c1 as [|a1 [|??]]; simplify_eq/=.
    destruct H2 as [|c2 l2 Hc2 H2]; [simplify_eq/=|].
    destruct c2 as [|a2 [|??]]; simplify_eq/=.
    f_equal. by apply IH.
Qed.

Lemma chars_join_single (combo : list str) :
  Forall (fun c => length c = 1%nat) combo →
  PyStr.chars (PyStr.join combo) = combo.
Proof.
  induction 1 as [|c combo Hc _ IH]; [done|].
  destruct c as [|a [|??]]; try discriminate Hc.
  change (PyStr.chars (PyStr.join ([a] :: combo)))
    with ([a] :: PyStr.chars (PyStr.join combo)).
  by rewrite IH.
Qed.

Lemma combo_single (u : Unicode) (combo chs : list str) :
  Forall (fun c => length c = 1%nat) chs →
  Forall2 (fun x ch => x ∈ options_of u ch) combo chs →
  Forall (fun c => length c = 1%nat) combo.
Proof.
  intros Hchs Hcombo. revert Hchs.
  induction Hcombo as [|x ch combo chs Hx _ IH]; intros Hchs; [constructor|].
  inversion Hchs; subst. constructor; [by eapply options_of_single|auto].
Qed.

Lemma collect_variants_mono (cap : Z) (variants : gset str) combos :
  variants ⊆ collect_variants cap variants combos.
Proof.
  revert variants. induction combos as [|c rest IH]; intros variants; simpl.
  - done.
  - destruct (cap <=? _); [set_solver|].
    etrans; [|apply IH]. set_solver.
Qed.

Lemma collect_variants_all (cap : Z) (variants : gset str) combos :
  set_len variants + Z.of_nat (length combos) ≤ cap →
  ∀ c, c ∈ combos → PyStr.join c ∈ collect_variants cap variants combos.
Proof.
  revert variants. induction combos as [|c rest IH]; intros variants Hle c' Hc'.
  - by apply elem_of_nil in Hc'.
  - simpl in *. pose proof (size_add_le (PyStr.join c) variants) as Hadd.
    destruct (Z.leb_spec cap (set_len ({[PyStr.join c]} ∪ variants)))
      as [Hge|Hlt].
    + assert (rest = []) as ->
        by (destruct rest; [done|unfold set_len in *; simpl in *; lia]).
      apply list_elem_of_singleton in Hc' as ->. set_solver.
    + apply elem_of_cons in Hc' as [->|Hc'].
      * apply collect_variants_mono. set_solver.
      * apply IH; [unfold set_len in *; lia|done].
Qed.

Lemma collect_variants_size_exact (cap : Z) (variants : gset str) combos :
  set_len variants < cap →
  NoDup (PyStr.join <$> combos) →
  (∀ c, c ∈ combos → PyStr.join c ∉ variants) →
  set_len (collect_variants cap variants combos)
  = Z.min cap (set_len variants + Z.of_nat (length combos)).
Proof.
  revert variants.
  induction combos as [|c rest IH]; intros variants Hlt Hnd Hfresh.
  - simpl. lia.
  - simpl. rewrite fmap_cons in Hnd. apply NoDup_cons in Hnd as [Hc Hnd].
    assert (Hsize : set_len ({[PyStr.join c]} ∪ variants)
                    = set_len variants + 1).
    { unfold set_len. rewrite size_union, size_singleton; [lia|].
      apply disjoint_singleton_l, Hfresh. left. }
    destruct (Z.leb_spec cap (set_len ({[PyStr.join c]} ∪ variants)))
      as [Hge|Hlt'].
    + lia.
    + rewrite IH; [lia|done|done|].
      intros c' Hc'. rewrite not_elem_of_union, not_elem_of_singleton.
      split; [|apply Hfresh; by right].
      intros Heq. apply Hc. rewrite <-Heq. by apply list_elem_of_fmap_2.
Qed.

Lemma choices_of_heads (u : Unicode) (word : str) :
  Forall2 (fun h pool => ∃ tl, pool = h :: tl) (PyStr.chars word)
          (choices_of u word).
Proof.
  unfold choices_of. induction (PyStr.chars word) as [|ch chs IH];
    [constructor|].
  rewrite fmap_cons. constructor; [apply options_of_head|done].
Qed.

Lemma elem_of_product_choices (u : Unicode) (word : str) (combo : list str) :
  combo ∈ PyStr.product (choices_of u word) ↔
  Forall2 (fun x ch => x ∈ options_of u ch) combo (PyStr.chars word).
Proof.
  rewrite elem_of_product_iff. unfold choices_of.
  generalize (PyStr.chars word). intros chs. split.
  - revert combo. induction chs as [|ch chs IH]; intros combo Hcombo;
      inversion Hcombo; subst; constructor; auto.
  - induction 1; rewrite ?fmap_cons; constructor; auto.
Qed.

Lemma NoDup_join_product (u : Unicode) (word : str) :
  NoDup (PyStr.join <$> PyStr.product (choices_of u word)).
Proof.
  apply NoDup_fmap_2_strong.
  - intros c1 c2 Hc1 Hc2.
    apply join_single_inj;
      eapply combo_single; try apply chars_single;
      by apply elem_of_product_choices.
  - apply NoDup_product. unfold choices_of.
    apply Forall_fmap, Forall_forall. intros ch _. apply NoDup_options_of.
Qed.

(** X1: the word itself is always among its leet variants, whatever the
    cap: the first combination enumerated is the word unchanged. *)
Theorem generate_leet_variants_contains_word (u : Unicode) (word : str)
    (cap : Z) :
  word ≠ [] → word ∈ generate_leet_variants u word cap.
Proof.
  intros Hne. unfold generate_leet_variants. rewrite decide_False by done.
  destruct (product_head _ _ (choices_of_heads u word)) as [others ->].
  simpl. rewrite join_chars.
  destruct (cap <=? _); [set_solver|].
  apply collect_variants_mono. set_solver.
Qed.

Lemma generate_leet_variants_contains_word_witness :
  (py "Tiger") ∈ generate_leet_variants ascii_only (py "Tiger") 2.
Proof.
  apply generate_leet_variants_contains_word. discriminate.
Defined.

(** X2: with a cap of one or less (zero and negative caps included) a
    non-empty word yields exactly the set of the word itself: one string is
    added before the cap is looked at, so a cap below one is exceeded. *)
Theorem generate_leet_variants_small_cap (u : Unicode) (word : str) (cap : Z) :
  word ≠ [] → cap ≤ 1 → generate_leet_variants u word cap = {[ word ]}.
Proof.
  intros Hne Hcap. unfold generate_leet_variants.
  rewrite decide_False by done.
  destruct (product_head _ _ (choices_of_heads u word)) as [others ->].
  simpl. rewrite join_chars, (right_id_L ∅ (∪)).
  destruct (Z.leb_spec cap (set_len {[word]})) as [_|Hlt]; [done|].
  unfold set_len in Hlt. rewrite size_singleton in Hlt. lia.
Qed.

Lemma generate_leet_variants_small_cap_witness :
  generate_leet_variants ascii_only (py "Tiger") 0 = {[ py "Tiger" ]}.
Proof.
  apply generate_leet_variants_small_cap; [discriminate|lia].
Defined.

(** X3: for a non-empty word and a positive cap the number of variants is
    exactly the smaller of the cap and the product of the alphabet sizes of
    the positions of the word. *)
Theorem generate_leet_variants_size_exact (u : Unicode) (word : str) (cap : Z) :
  word ≠ [] → 0 < cap →
  set_len (generate_leet_variants u word cap)
  = Z.min cap (count_combinations (choices_of u word)).
Proof.
  intros Hne Hcap. unfold generate_leet_variants.
  rewrite decide_False by done.
  rewrite collect_variants_size_exact.
  - rewrite length_product. unfold set_len. rewrite size_empty. lia.
  - unfold set_len. rewrite size_empty. lia.
  - apply NoDup_join_product.
  - intros c _. apply not_elem_of_empty.
Qed.

Lemma generate_leet_variants_size_exact_witness :
  set_len (generate_leet_variants ascii_only (py "Tiger") 500)
  = Z.min 500 (count_combinations (choices_of ascii_only (py "Tiger"))).
Proof.
  apply generate_leet_variants_size_exact; [discriminate|lia].
Defined.

Lemma leet_variant_allowed (u : Unicode) (word : str) (cap : Z) (v : str) :
  v ∈ generate_leet_variants u word cap →
  Forall2 (allowed_at u) (PyStr.chars v) (PyStr.chars word).
Proof.
  intros (combo & Hcombo & ->)%elem_of_generate_leet_variants.
  rewrite chars_join_single
    by (eapply combo_single; [apply chars_single|done]).
  eapply Forall2_impl; [exact Hcombo|].
  intros x ch. apply options_of_allowed.
Qed.

(** X4: whatever the cap, a variant differs from the word only by allowed
    substitutions: position by position its character is the character of
    the word or an alternative that [LEET_MAP] lists for the lower-case form
    of that character. *)
Theorem generate_leet_variants_positionwise (u : Unicode) (word : str) (cap : Z)
    (v : str) :
  v ∈ generate_leet_variants u word cap →
  Forall2 (allowed_at u) (PyStr.chars v) (PyStr.chars word).
Proof.
  intros (combo & Hcombo & ->)%elem_of_generate_leet_variants.
  rewrite chars_join_single
    by (eapply combo_single; [apply chars_single|done]).
  eapply Forall2_impl; [exact Hcombo|].
  intros x ch. apply options_of_allowed.
Qed.

Lemma generate_leet_variants_positionwise_witness :
  Forall2 (allowed_at ascii_only)
    (PyStr.chars (py "719er")) (PyStr.chars (py "Tiger")).
Proof.
  apply (generate_leet_variants_positionwise ascii_only (py "Tiger") 500).
  vm_compute. reflexivity.
Defined.

(** X5: when the product of the alphabet sizes does not exceed the cap, the
    variants of a non-empty word are exactly the strings obtained by
    choosing at each position the character of the word or one of its
    alternatives: nothing is left out. *)
Theorem generate_leet_variants_complete (u : Unicode) (word : str) (cap : Z)
    (v : str) :
  word ≠ [] → count_combinations (choices_of u word) ≤ cap →
  (v ∈ generate_leet_variants u word cap ↔
   length v = length word
   ∧ Forall2 (allowed_at u) (PyStr.chars v) (PyStr.chars word)).
Proof.
  intros Hne Hcount. split.
  - intros Hv. split; [by eapply generate_leet_variants_length|].
    by eapply leet_variant_allowed.
  - intros [_ Hall]. unfold generate_leet_variants.
    rewrite decide_False by done.
    rewrite <-(join_chars v).
    apply collect_variants_all.
    + rewrite length_product. unfold set_len. rewrite size_empty. lia.
    + apply elem_of_product_choices.
      eapply Forall2_impl; [exact Hall|].
      intros x ch. apply options_of_allowed.
Qed.

Lemma generate_leet_variants_complete_witness :
  (py "7!9er") ∈ generate_leet_variants ascii_only (py "Tiger") 500 ↔
  length (py "7!9er") = length (py "Tiger")
  ∧ Forall2 (allowed_at ascii_only)
      (PyStr.chars (py "7!9er")) (PyStr.chars (py "Tiger")).
Proof.
  apply generate_leet_variants_complete; [discriminate|].
  vm_compute. discriminate.
Defined.

(** ** The shape of the results *)

Lemma Sorted_take_le (n : nat) (l : list str) :
  Sorted PyStr.le l → Sorted PyStr.le (take n l).
Proof.
  intros Hl. revert n. induction Hl as [|x l _ IH Hx]; intros [|n]; simpl;
    try constructor.
  - apply IH.
  - destruct Hx as [|y l Hxy]; destruct n; simpl; constructor; done.
Qed.

(** X6: the list returned by [build_base_words] and the list returned by
    [generate_wordlist] are in increasing order of code points and hold no
    string twice. *)
Theorem results_sorted_without_duplicates (u : Unicode) (ho : HashOrder)
    (tokens : list str) :
  (Sorted PyStr.le (build_base_words u ho tokens)
   ∧ NoDup (build_base_words u ho tokens))
  ∧ (Sorted PyStr.le (generate_wordlist u ho tokens)
     ∧ NoDup (generate_wordlist u ho tokens)).
Proof.
  split; [split; [apply sorted_Sorted|apply NoDup_sorted]|].
  unfold generate_wordlist, generate_wordlist_capped.
  destruct (_ <? _).
  - split.
    + apply Sorted_take_le, sorted_Sorted.
    + eapply sublist_NoDup; [apply NoDup_sorted|apply sublist_take].
  - split; [apply sorted_Sorted|apply NoDup_sorted].
Qed.

(** X7: a string is a base word exactly when it is a case variation (the
    stripped token as given, lower-cased, upper-cased or capitalized) of a
    token that is non-empty after stripping, alone or followed by one of the
    seven affixes, or the concatenation of the lower-case forms of two
    non-empty tokens (as given, not stripped) that differ and whose lengths
    add up to at most 30, alone or followed by "123". *)
Theorem build_base_words_exactly (u : Unicode) (ho : HashOrder)
    (inputs : list str)
    (x : str) :
  x ∈ build_base_words u ho inputs ↔
  (∃ inp v,
      inp ∈ inputs ∧ PyStr.strip u inp ≠ []
      ∧ (v = PyStr.strip u inp ∨ v = PyStr.lower u (PyStr.strip u inp)
         ∨ v = PyStr.upper u (PyStr.strip u inp)
         ∨ v = PyStr.capitalize u (PyStr.strip u inp))
      ∧ (x = v ∨ ∃ aff, aff ∈ affixes ∧ x = v ++ aff))
  ∨ (∃ s t,
       s ∈ inputs ∧ s ≠ [] ∧ t ∈ inputs ∧ t ≠ []
       ∧ PyStr.lower u s ≠ PyStr.lower u t
       ∧ PyStr.len (PyStr.lower u s) + PyStr.len (PyStr.lower u t) ≤ 30
       ∧ (x = PyStr.lower u s ++ PyStr.lower u t
          ∨ x = (PyStr.lower u s ++ PyStr.lower u t) ++ (py "123"))).
Proof.
  rewrite elem_of_build_base_words.
  unfold from_input, from_variant, from_pair, inputs_lower. split.
  - intros [(inp & Hinp & Hne & v & Hv & Hx)|(a & Ha & b & Hb & Hab)].
    + left. exists inp, v. apply elem_of_case_variations in Hv. tauto.
    + right.
      apply list_elem_of_fmap in Ha as (s & -> & [Hs Hsin]%list_elem_of_filter).
      apply list_elem_of_fmap in Hb as (t & -> & [Ht Htin]%list_elem_of_filter).
      exists s, t. tauto.
  - intros [(inp & v & Hinp & Hne & Hv & Hx)
           |(s & t & Hs & Hsne & Ht & Htne & Hst)].
    + left. exists inp. split; [done|]. split; [done|].
      exists v. split; [by apply elem_of_case_variations|done].
    + right. exists (PyStr.lower u s). split.
      { apply list_elem_of_fmap_2, list_elem_of_filter. done. }
      exists (PyStr.lower u t). split; [|tauto].
      apply list_elem_of_fmap_2, list_elem_of_filter. done.
Qed.

Lemma inputs_lower_ext (u : Unicode) (l1 l2 : list str) (a : str) :
  (∀ x, x ∈ l1 ↔ x ∈ l2) → a ∈ inputs_lower u l1 → a ∈ inputs_lower u l2.
Proof.
  unfold inputs_lower. intros Hext
    (x & -> & [Hx Hin]%list_elem_of_filter)%list_elem_of_fmap.
  apply list_elem_of_fmap_2, list_elem_of_filter. split; [done|].
  by apply Hext.
Qed.

Lemma build_base_words_ext_1 (u : Unicode) (ho : HashOrder)
    (l1 l2 : list str) x :
  (∀ x, x ∈ l1 ↔ x ∈ l2) →
  x ∈ build_base_words u ho l1 → x ∈ build_base_words u ho l2.
Proof.
  intros Hext. rewrite !elem_of_build_base_words.
  intros [(inp & Hinp & Hx)|(a & Ha & b & Hb & Hx)].
  - left. exists inp. split; [by apply Hext|done].
  - right. exists a. split; [by eapply inputs_lower_ext|].
    exists b. split; [by eapply inputs_lower_ext|done].
Qed.

Lemma base_set_ext (u : Unicode) (ho : HashOrder) (l1 l2 : list str) :
  (∀ x, x ∈ l1 ↔ x ∈ l2) → base_set u ho l1 = base_set u ho l2.
Proof.
  intros Hext. apply set_eq. intros x.
  rewrite <-!(elem_of_sorted ho). fold (build_base_words u ho l1).
  fold (build_base_words u ho l2).
  split; apply build_base_words_ext_1; [done|]. intros y. by rewrite Hext.
Qed.

(** X8: the wordlist depends only on which tokens are given, not on their
    order nor on how often each occurs: two token lists with the same
    elements give the same base words and the same wordlist. *)
Theorem generate_wordlist_tokens_as_set (u : Unicode) (ho : HashOrder)
    (tokens1 tokens2 : list str) :
  (∀ t, t ∈ tokens1 ↔ t ∈ tokens2) →
  build_base_words u ho tokens1 = build_base_words u ho tokens2
  ∧ generate_wordlist u ho tokens1 = generate_wordlist u ho tokens2.
Proof.
  intros Hext.
  assert (Hbase : build_base_words u ho tokens1 = build_base_words u ho tokens2).
  { unfold build_base_words. by rewrite (base_set_ext u ho _ _ Hext). }
  split; [done|].
  unfold generate_wordlist, generate_wordlist_capped. by rewrite Hbase.
Qed.

Lemma generate_wordlist_tokens_as_set_witness :
  build_base_words ascii_only canonical_order
    [py "Tiger"; py "2000"; py "Tiger"]
  = build_base_words ascii_only canonical_order [py "2000"; py "Tiger"]
  ∧ generate_wordlist ascii_only canonical_order
      [py "Tiger"; py "2000"; py "Tiger"]
    = generate_wordlist ascii_only canonical_order [py "2000"; py "Tiger"].
Proof.
  apply generate_wordlist_tokens_as_set.
  intros t. rewrite !elem_of_cons, !elem_of_nil. tauto.
Defined.

Lemma sorted_empty (u : Unicode) (ho : HashOrder) : sorted ho ∅ = [].
Proof.
  apply length_zero_iff_nil. by rewrite length_sorted, size_empty.
Qed.

(** X9: when no token holds a character (an empty token list included),
    there are no base words and the wordlist is empty. *)
Theorem generate_wordlist_no_tokens (u : Unicode) (ho : HashOrder)
    (tokens : list str) :
  Forall (fun t => t = []) tokens →
  build_base_words u ho tokens = [] ∧ generate_wordlist u ho tokens = [].
Proof.
  intros Hempty.
  assert (Hbase : build_base_words u ho tokens = []).
  { destruct (build_base_words u ho tokens) as [|x l] eqn:E; [done|].
    assert (Hx : x ∈ build_base_words u ho tokens) by (rewrite E; left).
    apply elem_of_build_base_words in Hx
      as [(inp & Hinp & Hne & _)|(a & Ha & _)].
    - apply (proj1 (Forall_forall _ _) Hempty) in Hinp. by subst.
    - unfold inputs_lower in Ha.
      apply list_elem_of_fmap in Ha
        as (s & _ & [Hs Hsin]%list_elem_of_filter).
      by apply (proj1 (Forall_forall _ _) Hempty) in Hsin. }
  split; [done|].
  unfold generate_wordlist, generate_wordlist_capped. rewrite Hbase.
  simpl. by rewrite sorted_empty.
Qed.

Lemma generate_wordlist_no_tokens_witness :
  build_base_words ascii_only canonical_order [[]; []] = []
  ∧ generate_wordlist ascii_only canonical_order [[]; []] = [].
Proof.
  apply generate_wordlist_no_tokens. repeat constructor.
Defined.

(** ** What generate_wordlist keeps and what it leaves out *)

Lemma set_len_mono (X Y : gset str) : X ⊆ Y → set_len X ≤ set_len Y.
Proof. intros H. unfold set_len. apply inj_le, subseteq_size, H. Qed.

Lemma add_years_mono (out_cap : Z) (w : str) (ys : list Z)
    (all_words : gset str) :
  all_words ⊆ add_years out_cap w ys all_words.
Proof.
  revert all_words. induction ys as [|y ys IH]; intros all_words; simpl.
  - done.
  - destruct (out_cap <=? _); [done|].
    etrans; [|apply IH]. set_solver.
Qed.

Lemma add_endings_mono (out_cap : Z) (w : str) (all_words : gset str) :
  all_words ⊆ add_endings out_cap w all_words.
Proof. unfold add_endings. destruct (_ <? _); set_solver. Qed.

Lemma expand_words_mono (u : Unicode) (out_cap : Z) (base_words : list str)
    (all_words : gset str) :
  all_words ⊆ expand_words u out_cap base_words all_words.
Proof.
  revert all_words.
  induction base_words as [|w rest IH]; intros all_words; simpl; [done|].
  destruct (40 <? PyStr.len w); [apply IH|].
  assert (Hstep : all_words ⊆
    add_endings out_cap w
      (add_years out_cap w years
         (all_words ∪ generate_leet_variants u w 500))).
  { etrans; [|apply add_endings_mono]. etrans; [|apply add_years_mono].
    set_solver. }
  destruct (out_cap <=? _); [done|]. etrans; [exact Hstep|apply IH].
Qed.

Lemma add_years_all (out_cap : Z) (w : str) (ys : list Z)
    (all_words : gset str) :
  set_len (add_years out_cap w ys all_words) < out_cap →
  ∀ year, year ∈ ys →
    w ++ PyStr.of_int year ∈ add_years out_cap w ys all_words
    ∧ PyStr.of_int year ++ w ∈ add_years out_cap w ys all_words.
Proof.
  revert all_words. induction ys as [|y ys IH]; intros all_words Hlt year Hin.
  - by apply elem_of_nil in Hin.
  - simpl in *. destruct (Z.leb_spec out_cap (set_len all_words)) as [Hge|_].
    + lia.
    + apply elem_of_cons in Hin as [->|Hin]; [|by apply IH].
      split; apply add_years_mono; set_solver.
Qed.

Lemma add_endings_all (out_cap : Z) (w : str) (all_words : gset str) :
  set_len (add_endings out_cap w all_words) < out_cap →
  w ++ (py "007") ∈ add_endings out_cap w all_words
  ∧ w ++ (py "1234") ∈ add_endings out_cap w all_words.
Proof.
  unfold add_endings.
  destruct (Z.ltb_spec (set_len all_words) out_cap) as [_|Hge];
    [set_solver|lia].
Qed.

Lemma expand_words_all (u : Unicode) (out_cap : Z) (base_words : list str)
    (all_words : gset str) :
  set_len (expand_words u out_cap base_words all_words) < out_cap →
  ∀ w x, w ∈ base_words → PyStr.len w ≤ 40 → derived_from u w x →
    x ∈ expand_words u out_cap base_words all_words.
Proof.
  revert all_words.
  induction base_words as [|w rest IH]; intros all_words Hlt w' x Hw' Hlen Hx.
  - by apply elem_of_nil in Hw'.
  - rewrite expand_words_cons in *.
    destruct (Z.ltb_spec 40 (PyStr.len w)) as [Hlong|Hshort].
    + apply elem_of_cons in Hw' as [->|Hw']; [lia|by eapply IH].
    + set (all1 := all_words ∪ generate_leet_variants u w 500) in *.
      set (all2 := add_years out_cap w years all1) in *.
      set (all3 := add_endings out_cap w all2) in *.
      cbv zeta in *.
      destruct (Z.leb_spec out_cap (set_len all3)) as [Hge|Hlt3]; [lia|].
      apply elem_of_cons in Hw' as [->|Hw']; [|by eapply IH].
      apply expand_words_mono.
      assert (Hlt2 : set_len all2 < out_cap).
      { eapply Z.le_lt_trans; [|exact Hlt3].
        apply set_len_mono, add_endings_mono. }
      destruct Hx as [Hx|[(year & Hyear & Hx)|Hx]].
      * apply add_endings_mono, add_years_mono. set_solver.
      * apply add_endings_mono.
        destruct (add_years_all out_cap w years all1 Hlt2 year Hyear)
          as [H1 H2].
        by destruct Hx as [-> | ->].
      * destruct (add_endings_all out_cap w all2 Hlt3) as [H1 H2].
        by destruct Hx as [-> | ->].
Qed.

Lemma generate_wordlist_capped_below (out_cap : Z) (u : Unicode)
    (ho : HashOrder)
    (inputs : list str) :
  Z.of_nat (length (generate_wordlist_capped out_cap u ho inputs)) < out_cap →
  let all_words :=
    expand_words u out_cap (build_base_words u ho inputs)
      (list_to_set (build_base_words u ho inputs)) in
  set_len all_words < out_cap
  ∧ generate_wordlist_capped out_cap u ho inputs = sorted ho all_words.
Proof.
  unfold generate_wordlist_capped.
  set (all_words := expand_words u _ _ _). simpl.
  destruct (Z.ltb_spec out_cap (Z.of_nat (length (sorted ho all_words))))
    as [Hlong|Hshort].
  - unfold take_upto. rewrite length_take. lia.
  - intros Hlt. split; [|done].
    unfold set_len. by rewrite <-(length_sorted ho).
Qed.

(** X10: when the wordlist comes out shorter than the cap, nothing has been
    left out: it holds every base word and, for every base word of at most
    40 characters, all of its leet variants (up to 500), the eight years
    after and before it, and the endings "007" and "1234". *)
Theorem generate_wordlist_complete_below_cap (u : Unicode) (ho : HashOrder)
    (tokens : list str) :
  Z.of_nat (length (generate_wordlist u ho tokens)) < MAX_FINAL_WORDLIST_SIZE →
  ∀ w, w ∈ build_base_words u ho tokens →
    w ∈ generate_wordlist u ho tokens
    ∧ (PyStr.len w ≤ 40 →
       ∀ x, derived_from u w x → x ∈ generate_wordlist u ho tokens).
Proof.
  unfold generate_wordlist. intros Hlt w Hw.
  destruct (generate_wordlist_capped_below _ u ho tokens Hlt) as [Hsize ->].
  split.
  - apply elem_of_sorted, expand_words_mono. by apply elem_of_list_to_set.
  - intros Hlen x Hx. apply elem_of_sorted. by eapply expand_words_all.
Qed.

Lemma generate_wordlist_complete_below_cap_witness :
  (py "7") ∈ generate_wordlist ascii_only canonical_order [py "7"]
  ∧ (PyStr.len (py "7") ≤ 40 →
     ∀ x, derived_from ascii_only (py "7") x →
       x ∈ generate_wordlist ascii_only canonical_order [py "7"]).
Proof.
  apply generate_wordlist_complete_below_cap.
  - assert (Hlen :
      length (generate_wordlist ascii_only canonical_order [py "7"])
      = 132%nat)
      by (vm_compute; reflexivity).
    rewrite Hlen. unfold MAX_FINAL_WORDLIST_SIZE. lia.
  - unfold build_base_words. apply elem_of_sorted. vm_compute. reflexivity.
Defined.

Lemma elem_of_expand_words_short (u : Unicode) (out_cap : Z)
    (base_words : list str)
    (all_words : gset str) (x : str) :
  x ∈ expand_words u out_cap base_words all_words →
  x ∈ all_words
  ∨ ∃ w, w ∈ base_words ∧ PyStr.len w ≤ 40 ∧ derived_from u w x.
Proof.
  revert all_words.
  induction base_words as [|w rest IH]; intros all_words; simpl; [by left|].
  destruct (Z.ltb_spec 40 (PyStr.len w)) as [Hlong|Hshort].
  - intros [?|(w' & Hw' & ?)]%IH; [by left|].
    right. exists w'. split; [by right|done].
  - assert (Hstep : ∀ y,
      y ∈ add_endings out_cap w
            (add_years out_cap w years
               (all_words ∪ generate_leet_variants u w 500)) →
      y ∈ all_words ∨ derived_from u w y).
    { intros y [Hy|Hy]%elem_of_add_endings;
        [|right; unfold derived_from; tauto].
      apply elem_of_add_years in Hy as [Hy|Hy];
        [|right; unfold derived_from; tauto].
      apply elem_of_union in Hy as [Hy|Hy]; [by left|].
      right. by left. }
    destruct (out_cap <=? _).
    + intros [?|?]%Hstep; [by left|].
      right. exists w. split; [left|done].
    + intros [[?|?]%Hstep|(w' & Hw' & ?)]%IH.
      * by left.
      * right. exists w. split; [left|done].
      * right. exists w'. split; [by right|done].
Qed.

(** X11: base words longer than 40 characters are never expanded: every
    entry of the wordlist is a base word, or is derived (as a leet variant,
    with a year before or after, or with the ending "007" or "1234") from a
    base word of at most 40 characters. *)
Theorem generate_wordlist_provenance (u : Unicode) (ho : HashOrder)
    (tokens : list str)
    (x : str) :
  x ∈ generate_wordlist u ho tokens →
  x ∈ build_base_words u ho tokens
  ∨ ∃ w, w ∈ build_base_words u ho tokens
      ∧ PyStr.len w ≤ 40 ∧ derived_from u w x.
Proof.
  unfold generate_wordlist, generate_wordlist_capped.
  set (base_words := build_base_words u ho tokens).
  set (all_words := expand_words u _ _ _).
  intros Hx.
  assert (Hall : x ∈ all_words).
  { apply (elem_of_sorted ho).
    destruct (_ <? _); [|done].
    by apply (subseteq_take (Z.to_nat MAX_FINAL_WORDLIST_SIZE)). }
  apply elem_of_expand_words_short in Hall as [Hb|Hd]; [|by right].
  left. by apply elem_of_list_to_set in Hb.
Qed.

Lemma generate_wordlist_provenance_witness :
  (py "71990") ∈ build_base_words ascii_only canonical_order [py "7"]
  ∨ ∃ w, w ∈ build_base_words ascii_only canonical_order [py "7"]
      ∧ PyStr.len w ≤ 40 ∧ derived_from ascii_only w (py "71990").
Proof.
  apply generate_wordlist_provenance.
  apply (bool_decide_unpack _). vm_compute. exact I.
Defined.

(** ** The prompts and main *)

Lemma has_space_app (u : Unicode) (s1 s2 : str) :
  PyStr.has_space u (s1 ++ s2) = PyStr.has_space u s1 || PyStr.has_space u s2.
Proof. apply existsb_app. Qed.

Lemma split_go_tokens (u : Unicode) (cur s : str) :
  PyStr.has_space u cur = false →
  Forall (fun t => t ≠ [] ∧ PyStr.has_space u t = false)
         (PyStr.split_go u cur s).
Proof.
  revert cur. induction s as [|a s IH]; intros cur Hcur; cbn [PyStr.split_go].
  - case_decide; [constructor|]. by repeat constructor.
  - destruct (PyStr.isspace u a) eqn:Ha.
    + case_decide; [by apply IH|]. constructor; [done|by apply IH].
    + apply IH. rewrite has_space_app, Hcur. simpl. by rewrite Ha.
Qed.

Lemma split_go_nil (u : Unicode) (cur s : str) :
  PyStr.split_go u cur s = [] → cur = [] ∧ PyStr.lstrip u s = [].
Proof.
  revert cur. induction s as [|a s IH]; intros cur; cbn [PyStr.split_go].
  - case_decide; [done|discriminate].
  - simpl. destruct (PyStr.isspace u a).
    + case_decide; [|discriminate]. intros [_ Hs]%IH. done.
    + intros [Hcur _]%IH. by destruct cur.
Qed.

Lemma lstrip_head (u : Unicode) (s : str) :
  PyStr.lstrip u s = []
  ∨ ∃ a r, PyStr.lstrip u s = a :: r ∧ PyStr.isspace u a = false.
Proof.
  induction s as [|a s IH]; simpl; [by left|].
  destruct (PyStr.isspace u a) eqn:Ha; [done|]. right. eauto.
Qed.

Lemma rstrip_head (u : Unicode) (a : N) (r : str) :
  PyStr.isspace u a = false → ∃ r', PyStr.rstrip u (a :: r) = a :: r'.
Proof.
  intros Ha. simpl. destruct (PyStr.rstrip u r); [|eauto].
  rewrite Ha. eauto.
Qed.

(** A stripped string is empty or starts with a character that is no
    whitespace. *)
Lemma strip_head (u : Unicode) (s : str) :
  PyStr.strip u s = []
  ∨ ∃ a r, PyStr.strip u s = a :: r ∧ PyStr.isspace u a = false.
Proof.
  unfold PyStr.strip.
  destruct (lstrip_head u s) as [->|(a & r & -> & Ha)].
  - by left.
  - right. destruct (rstrip_head u a r Ha) as [r' ->]. eauto.
Qed.

Lemma split_strip_nonempty (u : Unicode) (s : str) :
  PyStr.strip u s ≠ [] → PyStr.split u (PyStr.strip u s) ≠ [].
Proof.
  intros Hne Hnil. apply split_go_nil in Hnil as [_ Hl].
  destruct (strip_head u s) as [?|(a & r & Heq & Ha)]; [done|].
  rewrite Heq in Hl. simpl in Hl. rewrite Ha in Hl. discriminate.
Qed.

(** The line feed is whitespace in every database, so a string without
    whitespace holds no line feed. *)
Lemma newline_is_space (u : Unicode) (s : str) :
  PyStr.has_space u s = false → newline_free s.
Proof.
  unfold newline_free, PyStr.has_space. intros Hs Hin.
  assert (Hlf : PyStr.isspace u PyStr.LF = true).
  { rewrite PyStr.isspace_ascii; [done|]. unfold PyStr.is_ascii, PyStr.LF. lia. }
  assert (existsb (PyStr.isspace u) s = true); [|congruence].
  apply existsb_exists. exists PyStr.LF. by rewrite <-list_elem_of_In.
Qed.

Lemma interactive_mode_returns (u : Unicode) (stdin : list str) (pwd : str)
    (inputs rest : list str) :
  interactive_mode u stdin = Some (pwd, inputs, rest) →
  inputs ≠ []
  ∧ Forall (fun t => t ≠ [] ∧ PyStr.has_space u t = false) inputs.
Proof.
  unfold interactive_mode, input.
  destruct stdin as [|line1 [|line2 stdin]]; simpl; try discriminate.
  intros [= _ <- _]. case_decide as Hraw.
  - split; [discriminate|].
    repeat constructor; try discriminate;
      unfold PyStr.has_space; simpl;
      rewrite !PyStr.isspace_ascii by (unfold PyStr.is_ascii; lia); done.
  - split; [by apply split_strip_nonempty|by apply split_go_tokens].
Qed.

(** X12: when [interactive_mode] returns, its token list is never empty and
    every token is non-empty and free of whitespace: a blank answer to the
    second prompt is replaced by the three default tokens, and any other
    answer is split at its whitespace. *)
Theorem interactive_mode_tokens (u : Unicode) (stdin : list str) (pwd : str)
    (inputs rest : list str) :
  interactive_mode u stdin = Some (pwd, inputs, rest) →
  inputs ≠ []
  ∧ Forall (fun t => t ≠ [] ∧ PyStr.has_space u t = false) inputs.
Proof.
  unfold interactive_mode, input.
  destruct stdin as [|line1 [|line2 stdin]]; simpl; try discriminate.
  intros [= _ <- _]. case_decide as Hraw.
  - split; [discriminate|].
    repeat constructor; try discriminate;
      unfold PyStr.has_space; simpl;
      rewrite !PyStr.isspace_ascii by (unfold PyStr.is_ascii; lia); done.
  - split; [by apply split_strip_nonempty|by apply split_go_tokens].
Qed.

Lemma interactive_mode_tokens_witness :
  [py "name"; py "pet"] ≠ []
  ∧ Forall (fun t => t ≠ [] ∧ PyStr.has_space ascii_only t = false)
           [py "name"; py "pet"].
Proof.
  apply (interactive_mode_tokens ascii_only [py "pw"; py " name  pet "]
           (py "pw") [py "name"; py "pet"] []).
  reflexivity.
Defined.

Lemma generate_wordlist_capped_ext (out_cap : Z) (u : Unicode)
    (ho1 ho2 : HashOrder) (l1 l2 : list str) :
  (∀ x, x ∈ l1 ↔ x ∈ l2) →
  generate_wordlist_capped out_cap u ho1 l1
  = generate_wordlist_capped out_cap u ho2 l2.
Proof.
  intros Hext.
  assert (Hbase : build_base_words u ho1 l1 = build_base_words u ho2 l2).
  { rewrite (build_base_words_canonical u ho1 ho2). unfold build_base_words.
    by rewrite (base_set_ext u ho2 _ _ Hext). }
  unfold generate_wordlist_capped. rewrite Hbase.
  by rewrite (sorted_canonical ho1 ho2).
Qed.

Lemma elem_of_iter (ho : HashOrder) (s : gset str) (x : str) :
  x ∈ iter ho s ↔ x ∈ s.
Proof. rewrite iter_perm. apply elem_of_elements. Qed.

(** X13: a run of [main] is determined by the command line, the lines
    typed and whether the output file can be opened: the order in which the
    run iterates its sets, which decides the order of the seeds in
    [list(seeds)], changes neither how the run ends nor the entries
    written. *)
Theorem main_deterministic (u : Unicode) (ho1 ho2 : HashOrder)
    (can_open : str → bool) (args : Args) (stdin : list str) :
  main u ho1 can_open args stdin = main u ho2 can_open args stdin.
Proof.
  unfold main. destruct (resolve_args u args stdin) as [[password inputs]|];
    [|done].
  case_decide; [done|].
  assert (Heq : ∀ A B : list str, (∀ x, x ∈ A ↔ x ∈ B) →
            generate_wordlist u ho1 A = generate_wordlist u ho2 B).
  { intros A B HAB. by apply generate_wordlist_capped_ext. }
  rewrite (Heq _ (if decide (inputs = [])
                  then iter ho2 (fallback_seeds password) else inputs));
    [done|].
  intros x. case_decide; [|done]. by rewrite !elem_of_iter.
Qed.

Lemma generate_wordlist_capped_newline_free (out_cap : Z) (u : Unicode)
    (ho : HashOrder) (tokens : list str) :
  Forall newline_free tokens →
  Forall newline_free (generate_wordlist_capped out_cap u ho tokens).
Proof.
  intros Htokens. apply Forall_forall.
  intros x (w & Hw & Hx)%elem_of_generate_wordlist_capped.
  apply (newline_free_build_base_words _ _ _ _ Htokens) in Hw.
  destruct Hx as [->|Hx]; [done|by eapply newline_free_derived_from].
Qed.

(** X14: when neither a password nor tokens are given on the command line,
    so that both are prompted for, the entries [main] writes hold no line
    feed, whatever is typed, and the file reads back, line by line, as the
    entries written. *)
Theorem main_interactive_round_trip (u : Unicode) (ho : HashOrder)
    (can_open : str → bool) (args : Args) (stdin : list str)
    (out_path : str) (entries : list str) :
  given_str (arg_password args) = false →
  given_list (arg_inputs args) = false →
  main u ho can_open args stdin = Generated out_path entries →
  Forall newline_free entries
  ∧ read_lines (write_lines entries) = entries.
Proof.
  intros Hpw Hin. unfold main, resolve_args. rewrite Hpw, Hin. simpl.
  destruct (interactive_mode u stdin) as [[[password inputs] rest]|] eqn:E;
    simpl; [|discriminate].
  apply interactive_mode_returns in E as [Hne Htok].
  case_decide; [discriminate|]. rewrite decide_False by done.
  destruct (can_open (arg_out args)); [|discriminate].
  intros [= _ <-].
  assert (Hfree : Forall newline_free (generate_wordlist u ho inputs)).
  { apply generate_wordlist_capped_newline_free.
    eapply Forall_impl; [exact Htok|].
    intros t [_ Ht]. by eapply newline_is_space. }
  split; [done|by apply read_write_lines].
Qed.

Lemma main_interactive_round_trip_witness :
  Forall newline_free (generate_wordlist ascii_only canonical_order [py "7"])
  ∧ read_lines (write_lines
      (generate_wordlist ascii_only canonical_order [py "7"]))
    = generate_wordlist ascii_only canonical_order [py "7"].
Proof.
  apply (main_interactive_round_trip ascii_only canonical_order
           (fun _ => true)
           {| arg_password := None; arg_inputs := None;
              arg_out := py "custom_wordlist.txt" |}
           [py "pw"; py " 7 "] (py "custom_wordlist.txt")).
  - reflexivity.
  - reflexivity.
  - reflexivity.
Defined.




(** ** Which variants a cap keeps *)

Lemma collect_variants_take (cap : Z) (variants : gset str) combos :
  set_len variants < cap →
  NoDup (PyStr.join <$> combos) →
  (∀ c, c ∈ combos → PyStr.join c ∉ variants) →
  collect_variants cap variants combos
  = variants
    ∪ list_to_set
        (PyStr.join <$> take (Z.to_nat (cap - set_len variants)) combos).
Proof.
  revert variants.
  induction combos as [|c rest IH]; intros variants Hlt Hnd Hfresh.
  - rewrite take_nil. simpl. set_solver.
  - simpl. rewrite fmap_cons in Hnd. apply NoDup_cons in Hnd as [Hc Hnd].
    assert (Hsize : set_len ({[PyStr.join c]} ∪ variants)
                    = set_len variants + 1).
    { unfold set_len. rewrite size_union, size_singleton; [lia|].
      apply disjoint_singleton_l, Hfresh. left. }
    replace (Z.to_nat (cap - set_len variants))
      with (S (Z.to_nat (cap - (set_len variants + 1)))) by lia.
    rewrite firstn_cons, fmap_cons, list_to_set_cons.
    destruct (Z.leb_spec cap (set_len ({[PyStr.join c]} ∪ variants)))
      as [Hge|Hlt'].
    + replace (Z.to_nat (cap - (set_len variants + 1))) with O by lia.
      rewrite take_0. simpl. set_solver.
    + rewrite IH; [rewrite Hsize; set_solver|done|done|].
      intros c' Hc'. rewrite not_elem_of_union, not_elem_of_singleton.
      split; [|apply Hfresh; by right].
      intros Heq. apply Hc. rewrite <-Heq. by apply list_elem_of_fmap_2.
Qed.

(** X16: for a non-empty word and a positive cap, the variants returned are
    exactly the first [cap] combinations in the order [itertools.product]
    enumerates them (the last position advancing fastest): a cap cuts the
    enumeration off, it does not sample it. *)
Theorem generate_leet_variants_first_combinations (u : Unicode) (word : str)
    (cap : Z) :
  word ≠ [] → 0 < cap →
  generate_leet_variants u word cap
  = list_to_set
      (PyStr.join <$> take (Z.to_nat cap) (PyStr.product (choices_of u word))).
Proof.
  intros Hne Hcap. unfold generate_leet_variants.
  rewrite decide_False by done.
  rewrite collect_variants_take.
  - unfold set_len. rewrite size_empty, Z.sub_0_r. set_solver.
  - unfold set_len. rewrite size_empty. lia.
  - apply NoDup_join_product.
  - intros c _. apply not_elem_of_empty.
Qed.

Lemma generate_leet_variants_first_combinations_witness :
  generate_leet_variants ascii_only (py "Ab") 3
  = list_to_set
      (PyStr.join
         <$> take (Z.to_nat 3) (PyStr.product (choices_of ascii_only (py "Ab")))).
Proof.
  apply generate_leet_variants_first_combinations; [discriminate|lia].
Defined.

(** ** How large the results can get *)

Lemma size_foldl_le {B : Type} (f : gset str → B → gset str) (k : nat) :
  (∀ base b, (size (f base b) ≤ size base + k)%nat) →
  ∀ (l : list B) (base : gset str),
    (size (foldl f base l) ≤ size base + k * length l)%nat.
Proof.
  intros Hf l. induction l as [|b l IH]; intros base; simpl; [lia|].
  specialize (IH (f base b)). specialize (Hf base b). lia.
Qed.

Lemma size_union_le (X Y : gset str) :
  (size (X ∪ Y) ≤ size X + size Y)%nat.
Proof.
  rewrite size_union_alt.
  apply Nat.add_le_mono_l, subseteq_size, subseteq_difference_l. done.
Qed.

Lemma size_add_le_step (x : str) (X : gset str) (n : nat) :
  (size X ≤ n)%nat → (size ({[ x ]} ∪ X) ≤ S n)%nat.
Proof. intros H. etrans; [apply size_add_le|]. by apply le_n_S. Qed.

Lemma length_case_variations (u : Unicode) (ho : HashOrder) (word : str) :
  (length (case_variations u ho word) ≤ 4)%nat.
Proof.
  unfold case_variations. rewrite length_sorted.
  repeat apply size_add_le_step. by rewrite size_empty.
Qed.

Lemma size_add_variant (v : str) (base : gset str) :
  (size (add_affixes v ({[ v ]} ∪ base)) ≤ size base + 7)%nat.
Proof.
  unfold add_affixes, affixes. cbn [foldl].
  change (py "") with (@nil N). rewrite app_nil_r.
  replace ({[v]} ∪ ({[v]} ∪ base)) with ({[v]} ∪ base) by set_solver.
  rewrite (Nat.add_comm _ 7). cbn [Nat.add].
  repeat apply size_add_le_step. done.
Qed.

Lemma size_add_input (u : Unicode) (ho : HashOrder) (base : gset str)
    (inp : str) :
  (size (add_input u ho base inp) ≤ size base + 28)%nat.
Proof.
  unfold add_input. case_decide; [lia|].
  etrans; [apply (size_foldl_le _ 7)|].
  - intros b v. apply size_add_variant.
  - pose proof (length_case_variations u ho (PyStr.strip u inp)). lia.
Qed.

Lemma size_add_pair (a : str) (base : gset str) (b : str) :
  (size (add_pair a base b) ≤ size base + 2)%nat.
Proof.
  unfold add_pair. case_decide; [|lia].
  rewrite (Nat.add_comm _ 2). cbn [Nat.add].
  repeat apply size_add_le_step. done.
Qed.

Lemma length_inputs_lower (u : Unicode) (inputs : list str) :
  (length (inputs_lower u inputs) ≤ length inputs)%nat.
Proof. unfold inputs_lower. rewrite length_fmap. apply length_filter. Qed.

(** X17: [n] tokens give at most [28 * n + 2 * n * n] base words: four case
    variations with six proper affixes each for a token, and two strings
    for an ordered pair of tokens. *)
Theorem build_base_words_length_bound (u : Unicode) (ho : HashOrder)
    (inputs : list str) :
  Z.of_nat (length (build_base_words u ho inputs))
  ≤ 28 * Z.of_nat (length inputs)
    + 2 * Z.of_nat (length inputs) * Z.of_nat (length inputs).
Proof.
  unfold build_base_words, base_set, add_pairs.
  rewrite length_sorted.
  pose proof (length_inputs_lower u inputs) as Hlow.
  set (m := length (inputs_lower u inputs)) in *.
  set (n := length inputs) in *.
  pose proof (size_foldl_le (add_input u ho) 28 (size_add_input u ho) inputs ∅)
    as Hfirst.
  rewrite size_empty in Hfirst. fold n in Hfirst.
  set (base := foldl (add_input u ho) ∅ inputs) in *.
  assert (Hinner : ∀ b a,
    (size (foldl (add_pair a) b (inputs_lower u inputs)) ≤ size b + 2 * m)%nat).
  { intros b a. apply (size_foldl_le (add_pair a) 2). apply size_add_pair. }
  pose proof (size_foldl_le
    (fun base a => foldl (add_pair a) base (inputs_lower u inputs))
    (2 * m) Hinner (inputs_lower u inputs) base) as Hpairs.
  fold m in Hpairs. nia.
Qed.

Lemma size_add_years (out_cap : Z) (w : str) (ys : list Z)
    (all_words : gset str) :
  (size (add_years out_cap w ys all_words)
   ≤ size all_words + 2 * length ys)%nat.
Proof.
  revert all_words. induction ys as [|y ys IH]; intros all_words;
    cbn [add_years length].
  - simpl. lia.
  - destruct (out_cap <=? _); [simpl; lia|].
    etrans; [apply IH|].
    generalize (w ++ PyStr.of_int y) (PyStr.of_int y ++ w). intros s1 s2.
    pose proof (size_add_le s1 all_words).
    pose proof (size_add_le s2 ({[s1]} ∪ all_words)).
    unfold str in *.
    lia.
Qed.

Lemma size_add_endings (out_cap : Z) (w : str) (all_words : gset str) :
  (size (add_endings out_cap w all_words) ≤ size all_words + 2)%nat.
Proof.
  unfold add_endings. destruct (_ <? _); [|lia].
  rewrite (Nat.add_comm _ 2). cbn [Nat.add].
  repeat apply size_add_le_step. done.
Qed.

Lemma size_expand_words (u : Unicode) (out_cap : Z) (base_words : list str)
    (all_words : gset str) :
  set_len (expand_words u out_cap base_words all_words)
  ≤ set_len all_words + 518 * Z.of_nat (length base_words).
Proof.
  revert all_words.
  induction base_words as [|w rest IH]; intros all_words.
  - simpl. lia.
  - rewrite expand_words_cons. cbv zeta.
    assert (Hlen : Z.of_nat (length (w :: rest))
                   = Z.of_nat (length rest) + 1) by (simpl; lia).
    rewrite Hlen. clear Hlen.
    destruct (40 <? PyStr.len w).
    { specialize (IH all_words). lia. }
    set (all1 := all_words ∪ generate_leet_variants u w 500).
    set (all2 := add_years out_cap w years all1).
    set (all3 := add_endings out_cap w all2).
    assert (Hleet : set_len (generate_leet_variants u w 500) ≤ 500).
    { unfold generate_leet_variants. case_decide.
      - unfold set_len. rewrite size_empty. lia.
      - apply collect_variants_size. unfold set_len.
        rewrite size_empty. lia. }
    assert (H1 : set_len all1 ≤ set_len all_words + 500).
    { pose proof (size_union_le all_words (generate_leet_variants u w 500)).
      unfold set_len in *. fold all1 in H. lia. }
    assert (H2 : set_len all2 ≤ set_len all1 + 16).
    { pose proof (size_add_years out_cap w years all1) as Hy.
      change (length years) with 8%nat in Hy.
      unfold set_len. fold all2 in Hy. lia. }
    assert (H3 : set_len all3 ≤ set_len all2 + 2).
    { pose proof (size_add_endings out_cap w all2) as He.
      unfold set_len. fold all3 in He. lia. }
    destruct (out_cap <=? _).
    + lia.
    + specialize (IH all3). lia.
Qed.

(** X18: the wordlist has at most 519 entries for each base word: the base
    word itself, up to 500 leet variants, sixteen year forms and two
    endings. *)
Theorem generate_wordlist_length_bound (u : Unicode) (ho : HashOrder)
    (tokens : list str) :
  Z.of_nat (length (generate_wordlist u ho tokens))
  ≤ 519 * Z.of_nat (length (build_base_words u ho tokens)).
Proof.
  unfold generate_wordlist, generate_wordlist_capped.
  set (base_words := build_base_words u ho tokens).
  set (all_words := expand_words u _ _ _).
  assert (Hall : Z.of_nat (length (sorted ho all_words))
                 ≤ 519 * Z.of_nat (length base_words)).
  { rewrite length_sorted. unfold all_words.
    pose proof (size_expand_words u MAX_FINAL_WORDLIST_SIZE base_words
                  (list_to_set base_words)) as Hexp.
    assert (Hinit : set_len (list_to_set base_words : gset str)
                    = Z.of_nat (length base_words)).
    { unfold set_len. rewrite size_list_to_set; [done|]. apply NoDup_sorted. }
    unfold set_len in *. lia. }
  destruct (_ <? _); [|lia].
  unfold take_upto. rewrite length_take. lia.
Qed.
